(** * hapi-postcss: path confinement, artifact cache and directory fallback

    A shallow embedding of the three source files of the plugin
    (file.js, directory.js, index.js) and the properties of its
    path-resolution and cache-coherent response pipeline. *)

From Stdlib Require Import ZArith Ascii String.
From stdpp Require Import base option list gmap strings pretty.

Local Open Scope Z_scope.

(** ** JavaScript values that flow through the handlers *)

(** Header values, cached [mtime]/[etag] fields and option values are
    JavaScript values; the code only tests them for truthiness, compares
    them with [undefined] and stores them. [JFun] is a function value (a
    method found on a response object), carrying its source text. *)
Inductive jsval :=
| JUndefined
| JStr (s : string)
| JNum (n : Z)
| JFun (src : string).

Definition truthy (v : jsval) : bool :=
  match v with
  | JUndefined => false
  | JStr s => negb (String.eqb s "")
  | JNum n => negb (n =? 0)
  | JFun _ => true
  end.

(** [String(v)], as string concatenation applies it. An integer prints
    in decimal (JavaScript does so below 10^21). *)
Definition to_string (v : jsval) : string :=
  match v with
  | JUndefined => "undefined"
  | JStr s => s
  | JNum n => pretty n
  | JFun src => src
  end.

(** ** JavaScript numbers

    Numbers are IEEE 754 doubles. The numbers of this code are integers
    ([start], [end], lengths). An integer of magnitude up to 2^53 is a
    double; a larger one is rounded to the nearest integer that keeps 53
    significant bits, ties going to the even one. The result of [-] and
    [+] is the exact result rounded that way (magnitudes stay far below
    the overflow threshold 2^1024). *)
Definition round_double (z : Z) : Z :=
  let a := Z.abs z in
  if a <=? 2 ^ 53 then z
  else
    let e := Z.log2 a - 52 in
    let q := Z.shiftr a e in
    let r := Z.land a (Z.ones e) in
    let half := Z.shiftl 1 (e - 1) in
    let q := if (half <? r) || ((r =? half) && Z.odd q) then q + 1 else q in
    Z.sgn z * Z.shiftl q e.

Definition js_sub (a b : Z) : Z := round_double (a - b).
Definition js_add (a b : Z) : Z := round_double (a + b).

(** [Number.isSafeInteger] on an integer. *)
Definition safe_integer (n : Z) : bool :=
  (- (2 ^ 53 - 1) <=? n) && (n <=? 2 ^ 53 - 1).

(** Errors that can be thrown. [Boom] errors carry the HTTP status code of
    their [output] and the optional [code] of their data; everything else
    is a plain JavaScript or system error ([ValidationError] is the one
    [Joi.attempt] throws). *)
Inductive JsError :=
| Boom (statusCode : Z) (code : option string)
| TypeError (msg : string)
| AssertionError (msg : string)
| ValidationError (msg : string)
| SystemError (code : string).

Definition Boom_forbidden (code : option string) : JsError := Boom 403 code.
Definition Boom_notFound : JsError := Boom 404 None.
Definition Boom_internal : JsError := Boom 500 None.

Definition isBoom (e : JsError) : bool :=
  match e with Boom _ _ => true | _ => false end.

Inductive Result (A : Type) :=
| Ok (a : A)
| Throw (e : JsError).
Arguments Ok {A} a.
Arguments Throw {A} e.

(** ** Node's [path] module (POSIX flavour)

    [normalizeString] is written on the list of '/'-separated segments,
    kept in reverse while it is built: an empty segment and [.] are
    dropped, [..] removes the segment before it unless there is none or it
    is itself [..], in which case it is kept only when the path may climb
    above its root. *)
Module Path.

Definition isSep (c : ascii) : bool := Ascii.eqb c "/"%char.

Fixpoint segments (s : string) : list string :=
  match s with
  | EmptyString => [EmptyString]
  | String c s' =>
      if isSep c then EmptyString :: segments s'
      else match segments s' with
           | seg :: rest => String c seg :: rest
           | [] => [String c EmptyString]
           end
  end.

Definition push_segment (allowAboveRoot : bool)
    (res : list string) (seg : string) : list string :=
  if String.eqb seg "" || String.eqb seg "." then res
  else if String.eqb seg ".." then
    match res with
    | top :: below =>
        if String.eqb top ".."
        then (if allowAboveRoot then ".." :: res else res)
        else below
    | [] => if allowAboveRoot then [".."] else []
    end
  else seg :: res.

Definition normalizeString (path : string) (allowAboveRoot : bool) : string :=
  String.concat "/"
    (rev (fold_left (push_segment allowAboveRoot) (segments path) [])).

Definition isAbsolute (path : string) : bool :=
  match path with
  | String c _ => isSep c
  | EmptyString => false
  end.

Fixpoint endsWithSep (path : string) : bool :=
  match path with
  | EmptyString => false
  | String c EmptyString => isSep c
  | String _ rest => endsWithSep rest
  end.

Definition normalize (path : string) : string :=
  if String.eqb path "" then "."
  else
    let isAbs := isAbsolute path in
    let trailingSeparator := endsWithSep path in
    let p := normalizeString path (negb isAbs) in
    if String.eqb p "" then
      (if isAbs then "/" else if trailingSeparator then "./" else ".")
    else
      let p := if trailingSeparator then p +:+ "/" else p in
      if isAbs then "/" +:+ p else p.

Fixpoint join_args (joined : option string) (args : list string) : option string :=
  match args with
  | [] => joined
  | arg :: rest =>
      if String.eqb arg "" then join_args joined rest
      else match joined with
           | None => join_args (Some arg) rest
           | Some j => join_args (Some (j +:+ "/" +:+ arg)) rest
           end
  end.

Definition join (args : list string) : string :=
  match join_args None args with
  | None => "."
  | Some joined => normalize joined
  end.

(** [resolve] walks its arguments from the last to the first and then
    the working directory, until the accumulated path is absolute. *)
Fixpoint resolve_go (cwd : string) (args_rev : list string)
    (resolvedPath : string) : string * bool :=
  match args_rev with
  | [] =>
      if String.eqb cwd "" then (resolvedPath, false)
      else (cwd +:+ "/" +:+ resolvedPath, isAbsolute cwd)
  | path :: rest =>
      if String.eqb path "" then resolve_go cwd rest resolvedPath
      else
        let resolvedPath := path +:+ "/" +:+ resolvedPath in
        if isAbsolute path then (resolvedPath, true)
        else resolve_go cwd rest resolvedPath
  end.

Definition resolve (cwd : string) (args : list string) : string :=
  let '(resolvedPath, resolvedAbsolute) := resolve_go cwd (rev args) "" in
  let resolvedPath := normalizeString resolvedPath (negb resolvedAbsolute) in
  if resolvedAbsolute then "/" +:+ resolvedPath
  else if String.eqb resolvedPath "" then "." else resolvedPath.

(** The directory a path names, as the list of its components. *)
Definition components (path : string) : list string :=
  filter (fun seg => seg ≠ "") (segments path).

(** [path] names [dir] itself or something below it. *)
Definition within (dir path : string) : bool :=
  bool_decide (components dir `prefix_of` components path).

End Path.

(** A segment that [Path.normalizeString] keeps as it is: not empty, not
    [.] or [..], and free of separators (it is its own only segment). *)
Definition plain_segment (seg : string) : Prop :=
  seg ≠ "" ∧ seg ≠ "." ∧ seg ≠ ".." ∧ Path.segments seg = [seg].

(** [String.prototype.lastIndexOf(search, 0)]: the search starts at index 0
    and goes backwards, so the only position it can report is 0. *)
Definition lastIndexOf_from0 (s search : string) : Z :=
  if String.prefix search s then 0 else -1.


(** ** Data model *)

(** [response.source.path]: a resolved path, the denied sentinel [null],
    or [undefined] once marshal has replaced the source by [{}]. *)
Inductive jspath :=
| PathNull
| PathUndefined
| PathStr (p : string).

(** The property name a value turns into when it is used as a cache key. *)
Definition key_of (p : jspath) : string :=
  match p with
  | PathNull => "null"
  | PathUndefined => "undefined"
  | PathStr s => s
  end.

(** [options.confine]: [false] (or absent), [true], or a directory. *)
Inductive confine_opt :=
| ConfineFalse
| ConfineTrue
| ConfineStr (dir : string).

Definition confine_truthy (c : confine_opt) : bool :=
  match c with
  | ConfineFalse => false
  | ConfineTrue => true
  | ConfineStr dir => negb (String.eqb dir "")
  end.

(** The option object handed to [fileResponse]; the fields the plugin
    only passes on to its collaborators are kept as they are. [opt_start]
    and [opt_end] are integer-valued numbers. *)
Record Options := {
  opt_confine : confine_opt;
  opt_mode : option string;
  opt_etagMethod : option string;
  opt_lookupCompressed : bool;
  opt_start : option Z;
  opt_end : option Z
}.

Record Request := {
  relativeTo : string;          (* request.route.settings.files.relativeTo *)
  req_path : string;            (* request.path *)
  req_param : option string;    (* request.params[paramName] *)
  cwd : string                  (* process.cwd(), read by Path.resolve *)
}.

Record Stat := {
  mtime_utc : string;           (* stat.mtime.toUTCString() *)
  stat_size : Z
}.

(** The per-request source. [{}] is the record with every field
    undefined. The [stat] field of the source literal is never assigned
    and never read, so it is left out. *)
Record Source := {
  src_path : jspath;
  src_settings : option Options;
  src_file : option jspath      (* the Fs.File built for that path *)
}.

Definition empty_source : Source :=
  {| src_path := PathUndefined; src_settings := None; src_file := None |}.

(** A response descriptor. [rid] is the identity of the object that
    [request.generateResponse] allocated. *)
Record Response := {
  rid : nat;
  headers : gmap string jsval;
  source : Source;
  has_prepare : bool
}.

(** The transformation result: only its [css] text is read. *)
Record CssResult := { css : string }.

(** What can sit under a cache key: the record marshal stores, a record
    with the two headers only, or a response descriptor (by identity). *)
Inductive CacheValue :=
| FullRecord (mtime etag : jsval) (data : CssResult) (size : Z)
| MetaRecord (mtime etag : jsval)
| Descriptor (id : nat).

(** Property reads on a cached value. A response object has no [mtime],
    [data] or [size] property; its [etag] is the toolkit method. *)
Definition etag_method : jsval := JFun "etag(tag, options)".

Definition cached_mtime (v : CacheValue) : jsval :=
  match v with
  | FullRecord mtime _ _ _ | MetaRecord mtime _ => mtime
  | Descriptor _ => JUndefined
  end.

Definition cached_etag (v : CacheValue) : jsval :=
  match v with
  | FullRecord _ etag _ _ | MetaRecord _ etag => etag
  | Descriptor _ => etag_method
  end.

Definition cached_data (v : CacheValue) : option CssResult :=
  match v with
  | FullRecord _ _ data _ => Some data
  | _ => None
  end.

Definition is_full (v : CacheValue) : bool :=
  match v with FullRecord _ _ _ _ => true | _ => false end.

(** Calls that leave the plugin's own code: filesystem accesses, the
    call of inert's [Etag.apply] (which, under the hash method, reads
    the content of the file through the handle that is open) and runs of
    the transformation engine, in the order they are made. *)
Inductive Event :=
| FsOpenStat (path : string)
| EtagApply (path : jspath)
| FsReadFile (path : string)
| Transform (input : string).

(** The state the handlers share: the plugin's [_cache], the allocator of
    response objects, the calls made so far and the file handles that are
    open. The cache is always the [inMemoryCache] of index.js (the
    plugin's option schema admits no [cache] setting); [cache] holds the
    own properties of its [this.cache] object. *)
Record State := {
  cache : gmap string CacheValue;
  next_rid : nat;
  events : list Event;
  open_files : list string
}.

Definition initial_state : State :=
  {| cache := ∅; next_rid := 0; events := []; open_files := [] |}.

(** The collaborators at the time of a call: inert's [Fs.File.openStat]
    and [Etag.apply], [fs.promises.readFile] and the postcss processor.
    [openStat] either yields a stat, leaving the handle open, or throws
    with no handle left open. [etag_apply] yields the tag it passes to
    [response.etag], or [None] when it sets none. *)
Record World := {
  openStat : string → Result Stat;
  etag_apply : Source → Stat → Result (option jsval);
  readFile : string → Result string;
  postcss_process : string → Result CssResult
}.

(** ** State and exception monad *)

Definition M (A : Type) : Type := State → Result A * State.

#[global] Instance M_ret : MRet M := λ A a s, (Ok a, s).

#[global] Instance M_bind : MBind M := λ A B f m s,
  match m s with
  | (Ok a, s') => f a s'
  | (Throw e, s') => (Throw e, s')
  end.

Definition throw {A} (e : JsError) : M A := λ s, (Throw e, s).

Definition try_catch {A} (body : M A) (handler : JsError → M A) : M A := λ s,
  match body s with
  | (Ok a, s') => (Ok a, s')
  | (Throw e, s') => handler e s'
  end.

Definition lift_result {A} (r : Result A) : M A := λ s, (r, s).

Definition Hoek_assert (cond : bool) (msg : string) : M unit :=
  if cond then mret () else throw (AssertionError msg).

Definition log_event (e : Event) : M unit := λ s,
  (Ok (), {| cache := cache s; next_rid := next_rid s;
             events := events s ++ [e]; open_files := open_files s |}).

Definition hold_handle (path : string) : M unit := λ s,
  (Ok (), {| cache := cache s; next_rid := next_rid s;
             events := events s; open_files := path :: open_files s |}).

(** ** index.js: [inMemoryCache]

    [this.cache] is a plain object. Its own properties are what [set] has
    assigned, with one exception: an assignment to [__proto__] makes no
    own property (it reaches the accessor of [Object.prototype]). And
    [get] finds [hasOwnProperty] through the object itself: once a value
    is assigned under that name, the call [this.cache.hasOwnProperty(key)]
    calls that value, which is not a function. This model follows the own
    properties only; the prototype an assignment to [__proto__] installs
    is not followed ([get] reads own properties only, and the values
    stored here bring no [hasOwnProperty] of their own). *)
Module InMemoryCache.

Definition constructor : gmap string CacheValue := ∅.

Definition set (key : string) (data : CacheValue)
    (own : gmap string CacheValue) : gmap string CacheValue :=
  if String.eqb key "__proto__" then own else <[key := data]> own.

Definition get (key : string) (own : gmap string CacheValue)
    : Result (option CacheValue) :=
  match own !! "hasOwnProperty" with
  | Some _ => Throw (TypeError "this.cache.hasOwnProperty is not a function")
  | None => Ok (own !! key)
  end.

(** The keys for which the object behaves as a map. *)
Definition ordinary (key : string) : bool :=
  negb (String.eqb key "__proto__") && negb (String.eqb key "hasOwnProperty").

End InMemoryCache.

(** The two methods on the cache of the shared state. [get] answers
    [null] for a key that was never set; every value that is ever set is
    an object, hence truthy, so the [if (cached)] of the callers is the
    test for [Some]. *)
Definition cache_get (key : string) : M (option CacheValue) := λ s,
  (InMemoryCache.get key (cache s), s).

Definition cache_set (key : string) (data : CacheValue) : M unit := λ s,
  (Ok (), {| cache := InMemoryCache.set key data (cache s);
             next_rid := next_rid s;
             events := events s; open_files := open_files s |}).

(** ** The response toolkit

    [response.header], [response.type] and [response.bytes] assign the
    header they are named after; the plugin reads them back through
    [response.headers]. How [response.etag] renders a tag into the header
    is the framework's business and is a parameter here; hapi's rendering
    is [Sample.etag_header]. *)
Section Plugin.

Variable etag_header : jsval → jsval.

Definition header_of (response : Response) (name : string) : jsval :=
  default JUndefined (headers response !! name).

Definition response_header (name : string) (value : jsval)
    (response : Response) : Response :=
  {| rid := rid response;
     headers := <[name := value]> (headers response);
     source := source response;
     has_prepare := has_prepare response |}.

Definition response_type (type : string) : Response → Response :=
  response_header "content-type" (JStr type).

Definition response_bytes (bytes : Z) : Response → Response :=
  response_header "content-length" (JNum bytes).

Definition response_etag (tag : jsval) : Response → Response :=
  response_header "etag" (etag_header tag).

Definition set_source (src : Source) (response : Response) : Response :=
  {| rid := rid response;
     headers := headers response;
     source := src;
     has_prepare := has_prepare response |}.

(** [request.generateResponse(source, { variety, marshal, prepare })] *)
Definition generateResponse (src : Source) (prepare : bool) : M Response := λ s,
  (Ok {| rid := next_rid s; headers := ∅; source := src; has_prepare := prepare |},
   {| cache := cache s; next_rid := S (next_rid s);
      events := events s; open_files := open_files s |}).

(** ** file.js *)

Definition valid_mode (mode : option string) : bool :=
  match mode with
  | None => true
  | Some m => String.eqb m "" || String.eqb m "attachment" || String.eqb m "inline"
  end.

(** [Path.resolve(relativeTo, options.confine)]: a confine value that is
    not a string is refused by the argument check of [Path.resolve]. *)
Definition resolve_confine (request : Request) (c : confine_opt) : M string :=
  match c with
  | ConfineStr dir => mret (Path.resolve (cwd request) [relativeTo request; dir])
  | _ => throw (TypeError "The paths[1] argument must be of type string")
  end.

Definition fileResponse (path : string) (options : Options)
    (request : Request) (_preloaded : bool) : M Response :=
  _ ← Hoek_assert (valid_mode (opt_mode options))
        "options.mode must be either false, attachment, or inline";
  path ← (if confine_truthy (opt_confine options) then
            confineDir ← resolve_confine request (opt_confine options);
            let path := if Path.isAbsolute path then Path.normalize path
                        else Path.join [confineDir; path] in
            (* Verify that resolved path is within confineDir *)
            if negb (lastIndexOf_from0 path confineDir =? 0)
            then mret PathNull
            else mret (PathStr path)
          else
            mret (PathStr (if Path.isAbsolute path then Path.normalize path
                           else Path.join [relativeTo request; path])));
  let source := {| src_path := path;
                   src_settings := Some options;
                   src_file := None |} in
  generateResponse source (negb _preloaded).

(** [internals] is given [defaultMap], [schema], [prepare], [marshal],
    [addContentRange] and [processCSS] and nothing else: [internals.close]
    is [undefined], and calling it throws. *)
Definition internals_close (response : Response) : M unit :=
  throw (TypeError "internals.close is not a function").

(** [file.openStat('r')] on the [Fs.File] of the source. *)
Definition file_openStat (w : World) (path : jspath) : M Stat :=
  match path with
  | PathStr p =>
      _ ← log_event (FsOpenStat p);
      stat ← lift_result (openStat w p);
      _ ← hold_handle p;
      mret stat
  | _ => throw (TypeError "The path argument must be of type string")
  end.

(** [Etag.apply(response, stat)] *)
Definition Etag_apply (w : World) (response : Response) (stat : Stat) : M Response :=
  _ ← log_event (EtagApply (src_path (source response)));
  tag ← lift_result (etag_apply w (source response) stat);
  match tag with
  | Some tag => mret (response_etag tag response)
  | None => mret response
  end.

Definition prepare (w : World) (response : Response) : M Response :=
  let path := src_path (source response) in
  match path with
  | PathNull => throw (Boom_forbidden (Some "EACCES"))
  | _ =>
    cached ← cache_get (key_of path);
    match cached with
    | Some cached =>
        let response :=
          if negb (truthy (header_of response "content-type"))
          then response_type "text/css" response else response in
        let response :=
          if truthy (cached_mtime cached)
          then response_header "last-modified" (cached_mtime cached) response
          else response in
        let response :=
          if truthy (cached_etag cached)
          then response_etag (cached_etag cached) response
          else response in
        mret response
    | None =>
        let response :=
          set_source {| src_path := src_path (source response);
                        src_settings := src_settings (source response);
                        src_file := Some path |} response in
        try_catch
          (stat ← file_openStat w path;
           let response :=
             if negb (truthy (header_of response "content-type"))
             then response_type "text/css" response else response in
           let response :=
             response_header "last-modified" (JStr (mtime_utc stat)) response in
           response ← Etag_apply w response stat;
           mret response)
          (λ err, _ ← internals_close response; throw err)
    end
  end.

(** [internals.processCSS] *)
Definition processCSS (w : World) (response : Response) : M CssResult :=
  match src_path (source response) with
  | PathStr p =>
      _ ← log_event (FsReadFile p);
      data ← lift_result (readFile w p);
      _ ← log_event (Transform data);
      lift_result (postcss_process w data)
  | _ => throw (TypeError "The path argument must be of type string")
  end.

(** [response.source.settings], whose fields marshal reads. *)
Definition source_settings (response : Response) : M Options :=
  match src_settings (source response) with
  | Some settings => mret settings
  | None => throw (TypeError "Cannot read property 'start' of undefined")
  end.

(** [settings.start || 0] *)
Definition start_or_0 (settings : Options) : Z :=
  match opt_start settings with
  | Some start => if start =? 0 then 0 else start
  | None => 0
  end.

Definition css_length (data : CssResult) : Z := Z.of_nat (String.length (css data)).

(** ** marshal

    [marshal] looks the path up, and on a miss suspends on
    [await internals.processCSS(response)] before it stores the record.
    [data.mtime] and [data.etag] are read before the suspension.
    [marshal_begin] runs up to that point, [marshal_resume] from there.
    [cached && cached.data] holds exactly when the cached value is a full
    record. *)
Record Pending := {
  pend_response : Response;
  pend_path : jspath;
  pend_mtime : jsval;
  pend_etag : jsval
}.

Definition marshal_begin (response : Response) : M (Response * string + Pending) :=
  let path := src_path (source response) in
  cached ← cache_get (key_of path);
  match cached with
  | Some (FullRecord _ _ data size as cached) =>
      let response := response_header "last-modified" (cached_mtime cached) response in
      settings ← source_settings response;
      let start := start_or_0 settings in
      let response :=
        match opt_end settings with
        | Some end_ => response_bytes (js_add (js_sub end_ start) 1) response
        | None => response_bytes (js_sub size start) response
        end in
      let output := css data in
      mret (inl (set_source empty_source response, output))
  | _ =>
      mret (inr {| pend_response := response;
                   pend_path := path;
                   pend_mtime := header_of response "last-modified";
                   pend_etag := header_of response "etag" |})
  end.

Definition marshal_resume (w : World) (p : Pending) : M (Response * string) :=
  let response := pend_response p in
  data ← processCSS w response;
  let size := css_length data in
  _ ← cache_set (key_of (pend_path p))
        (FullRecord (pend_mtime p) (pend_etag p) data size);
  settings ← source_settings response;
  let start := start_or_0 settings in
  let response :=
    match opt_end settings with
    | Some end_ => response_bytes (js_add (js_sub end_ start) 1) response
    | None => response_bytes (js_sub size start) response
    end in
  let output := css data in
  mret (set_source empty_source response, output).

Definition marshal (w : World) (response : Response) : M (Response * string) :=
  r ← marshal_begin response;
  match r with
  | inl done => mret done
  | inr pending => marshal_resume w pending
  end.

(** [exports.load] *)
Definition load (w : World) (path : string) (request : Request)
    (options : Options) : M Response :=
  resp ← fileResponse path options request true;
  prepare w resp.


(** The configuration of the [css] file handler: [path] is a string or a
    function of the request. *)
Inductive PathOption :=
| PathString (path : string)
| PathFunction (f : Request → string).

(** The options of a [css] route: a bare path, or an object. In an
    object [confine] comes as it was given, possibly absent; the
    [opt_confine] field of [options] plays no part. *)
Inductive HandlerOptions :=
| OptionsPath (path : PathOption)
| OptionsObject (path : PathOption) (confine : option confine_opt)
    (options : Options).

Record Settings := {
  set_path : PathOption;
  set_options : Options
}.

Definition with_confine (c : confine_opt) (o : Options) : Options :=
  {| opt_confine := c; opt_mode := opt_mode o;
     opt_etagMethod := opt_etagMethod o;
     opt_lookupCompressed := opt_lookupCompressed o;
     opt_start := opt_start o; opt_end := opt_end o |}.

Definition default_options : Options :=
  {| opt_confine := ConfineStr "."; opt_mode := None; opt_etagMethod := None;
     opt_lookupCompressed := false; opt_start := None; opt_end := None |}.

(** [internals.schema], on the fields of the model. [Joi.string()] does
    not admit the empty string, [valid(...)] admits the listed values
    only, and a number has to be a safe integer. *)
Definition schema_string (s : string) : bool := negb (String.eqb s "").

Definition schema_path (path : PathOption) : bool :=
  match path with
  | PathString p => schema_string p
  | PathFunction _ => true
  end.

Definition schema_confine (confine : option confine_opt) : bool :=
  match confine with
  | Some (ConfineStr dir) => schema_string dir
  | _ => true
  end.

Definition schema_mode (mode : option string) : bool :=
  match mode with
  | None => true
  | Some m => String.eqb m "attachment" || String.eqb m "inline"
  end.

Definition schema_etagMethod (method : option string) : bool :=
  match method with
  | None => true
  | Some m => String.eqb m "hash" || String.eqb m "simple"
  end.

Definition schema_start (start : option Z) : bool :=
  match start with
  | None => true
  | Some n => safe_integer n && (0 <=? n)
  end.

(** [end] is compared with the value of [start], its default included. *)
Definition schema_end (start : Z) (end_ : option Z) : bool :=
  match end_ with
  | None => true
  | Some n => safe_integer n && (start <=? n)
  end.

Definition schema_accepts (options : HandlerOptions) : bool :=
  match options with
  | OptionsPath path => schema_path path
  | OptionsObject path confine o =>
      schema_path path && schema_confine confine && schema_mode (opt_mode o) &&
      schema_etagMethod (opt_etagMethod o) && schema_start (opt_start o) &&
      schema_end (default 0 (opt_start o)) (opt_end o)
  end.

(** [Joi.attempt(options, internals.schema, message)]: the value that
    passes comes back with the defaults of the schema filled in,
    [confine: true] and [start: 0]. *)
Definition Joi_attempt (options : HandlerOptions) : Result HandlerOptions :=
  if schema_accepts options then
    match options with
    | OptionsPath path => Ok (OptionsPath path)
    | OptionsObject path confine o =>
        Ok (OptionsObject path (Some (default ConfineTrue confine))
              {| opt_confine := opt_confine o; opt_mode := opt_mode o;
                 opt_etagMethod := opt_etagMethod o;
                 opt_lookupCompressed := opt_lookupCompressed o;
                 opt_start := Some (default 0 (opt_start o));
                 opt_end := opt_end o |})
    end
  else Throw (ValidationError "Invalid file handler options").

(** The part of [exports.fileHandler] that runs when the route is set
    up: the options are validated, a bare path gets [confine: '.'],
    [confine: true] becomes ['.'], and a string path may not end in
    '/'. *)
Definition fileHandler_settings (options : HandlerOptions) : Result Settings :=
  match Joi_attempt options with
  | Throw e => Throw e
  | Ok settings =>
      let settings :=
        match settings with
        | OptionsPath path =>                    (* typeof options !== 'object' *)
            {| set_path := path; set_options := default_options |}
        | OptionsObject path confine o =>
            {| set_path := path;
               set_options := with_confine (default ConfineFalse confine) o |}
        end in
      let settings :=
        {| set_path := set_path settings;
           set_options :=
             match opt_confine (set_options settings) with
             | ConfineTrue => with_confine (ConfineStr ".") (set_options settings)
             | _ => set_options settings
             end |} in
      match set_path settings with
      | PathString path =>
          if Path.endsWithSep path
          then Throw (AssertionError "File path cannot end with a '/'")
          else Ok settings
      | PathFunction _ => Ok settings
      end
  end.

(** What the handler hands back to the framework: the response it has
    just built, or whatever the cache held under the path. *)
Inductive HandlerResult :=
| Built (resp : Response)
| FromCache (cached : CacheValue).

(** [typeof settings.path === 'function' ? settings.path(request) : settings.path] *)
Definition configured_path (settings : Settings) (request : Request) : string :=
  match set_path settings with
  | PathFunction f => f request
  | PathString path => path
  end.

(** The request handler that [exports.fileHandler] returns. *)
Definition fileHandler (settings : Settings) (request : Request) : M HandlerResult :=
  let path := configured_path settings request in
  cached ← cache_get path;
  match cached with
  | Some cached => mret (FromCache cached)
  | None =>
      resp ← fileResponse path (set_options settings) request false;
      _ ← cache_set path (Descriptor (rid resp));
      mret (Built resp)
  end.

(** index.js: [internals.fileMethod], the [h.css] toolkit decoration.
    [confine] comes in as it was given, possibly absent. *)
Definition fileMethod (path : string) (confine : option confine_opt)
    (responseOptions : Options) (request : Request) : M Response :=
  let responseOptions :=
    match confine with
    | None | Some ConfineTrue => with_confine (ConfineStr ".") responseOptions
    | Some c => with_confine c responseOptions
    end in
  _ ← Hoek_assert
        (match opt_end responseOptions with
         | None => true
         | Some end_ =>
             match opt_start responseOptions with
             | Some start => start <=? end_
             | None => false          (* +undefined <= end is false *)
             end
         end)
        "options.start must be less than or equal to options.end";
  fileResponse path responseOptions request false.

(** ** directory.js *)

(** What a path function can return. *)
Inductive PathResult :=
| ResultError (e : JsError)
| ResultString (path : string)
| ResultArray (paths : list string)
| ResultOther.

Inductive DirectoryPath :=
| DirArray (paths : list string)
| DirFunction (f : Request → PathResult).

Record DirectorySettings := {
  dir_path : DirectoryPath;
  dir_showHidden : bool;
  dir_lookupCompressed : bool;
  dir_etagMethod : option string;
  dir_defaultExtension : option string
}.

Definition resolvePathOption (result : PathResult) : M (list string) :=
  match result with
  | ResultError e => throw e
  | ResultString path => mret [path]
  | ResultArray paths => mret paths
  | ResultOther => throw Boom_internal
  end.

Definition isSlash (c : ascii) : bool :=
  Ascii.eqb c "/"%char || Ascii.eqb c "\"%char.

Definition isDot (c : ascii) : bool := Ascii.eqb c "."%char.

(** [\.([^.\\/]|\.[^\\/])] matched at the head of [s]. *)
Definition hidden_here (s : string) : bool :=
  match s with
  | String c0 (String c1 rest) =>
      isDot c0 &&
      (if isDot c1
       then match rest with
            | String c2 _ => negb (isSlash c2)
            | EmptyString => false
            end
       else negb (isSlash c1))
  | _ => false
  end.

Fixpoint isFileHidden_from (boundary : bool) (s : string) : bool :=
  match s with
  | EmptyString => false
  | String c rest =>
      (boundary && hidden_here s) || isFileHidden_from (isSlash c) rest
  end.

(** [/(^|[\\/])\.([^.\\/]|\.[^\\/])/.test(path)] *)
Definition isFileHidden (path : string) : bool := isFileHidden_from true path.

Definition isNotFound (boom : JsError) : bool :=
  match boom with
  | Boom statusCode _ => statusCode =? 404
  | _ => false
  end.

(** [Bounce.ignore(err, 'boom')]: a boom error is let through to the
    code that follows, anything else is thrown again. *)
Definition Bounce_ignore_boom (err : JsError) : M unit :=
  if isBoom err then mret () else throw err.

(** [path.slice(0, -1)] *)
Fixpoint slice_0_m1 (s : string) : string :=
  match s with
  | EmptyString => EmptyString
  | String _ EmptyString => EmptyString
  | String c rest => String c (slice_0_m1 rest)
  end.

Definition string_truthy (o : option string) : option string :=
  match o with
  | Some s => if String.eqb s "" then None else Some s
  | None => None
  end.

Section Directory.

(** [File.load] of file.js. *)
Variable File_load : string → Request → Options → M Response.

Definition each (settings : DirectorySettings) (request : Request)
    (selection : option string) (hasTrailingSlash : bool)
    (baseDir : string) : M Response :=
  let fileOptions :=
    {| opt_confine := ConfineStr baseDir;
       opt_mode := None;
       opt_etagMethod := dir_etagMethod settings;
       opt_lookupCompressed := dir_lookupCompressed settings;
       opt_start := None;
       opt_end := None |} in
  let path := default "" (string_truthy selection) in
  try_catch (File_load path request fileOptions)
    (λ err,
      _ ← Bounce_ignore_boom err;
      let error := err in
      (* Handle Not found *)
      if isNotFound error then
        match string_truthy (dir_defaultExtension settings) with
        | None => throw error
        | Some defaultExtension =>
            let path := if hasTrailingSlash then slice_0_m1 path else path in
            File_load (path +:+ "." +:+ defaultExtension) request fileOptions
        end
      else throw error).

(** The loop over the candidate directories; [rest] is empty exactly when
    [i === paths.length - 1]. *)
Fixpoint directory_loop (each : string → M Response) (paths : list string)
    : M Response :=
  match paths with
  | [] => throw Boom_notFound
  | baseDir :: rest =>
      try_catch (each baseDir)
        (λ err,
          _ ← Bounce_ignore_boom err;
          (* Propagate any non-404 errors *)
          if negb (isNotFound err) || bool_decide (rest = [])
          then throw err
          else directory_loop each rest)
  end.

(** The request handler that [exports.handler] returns. *)
Definition directory_handler (settings : DirectorySettings)
    (request : Request) : M Response :=
  paths ← match dir_path settings with
          | DirArray normalized => mret normalized
          | DirFunction f => resolvePathOption (f request)
          end;
  (* Append parameter *)
  let selection := req_param request in
  if bool_decide (is_Some (string_truthy selection)) &&
     negb (dir_showHidden settings) &&
     isFileHidden (default "" selection)
  then throw Boom_notFound
  else
    (* Generate response *)
    let resource := req_path request in
    let hasTrailingSlash := Path.endsWithSep resource in
    directory_loop (each settings request selection hasTrailingSlash) paths.

End Directory.

End Plugin.

(** ** The server as a scheduler of handler calls

    Requests run on one thread and suspend at their awaits. The cache is
    touched by [fileHandler] (one lookup and at most one store, with no
    await in between), by [prepare] (one lookup before its first await)
    and by [marshal] (a lookup, then on a miss the await on the
    transformation, then the store). The system keeps the response
    objects that are alive, by identity, and the marshals suspended on
    their transformation; an action is one uninterrupted stretch of one
    request. Any order of actions is a schedule. *)
Section Scheduler.

Variable etag_header : jsval → jsval.

Record System := {
  sys_state : State;
  sys_responses : gmap nat Response;
  sys_pending : gmap nat Pending
}.

Definition initial_system : System :=
  {| sys_state := initial_state; sys_responses := ∅; sys_pending := ∅ |}.

Inductive Action :=
| ActFileHandler (settings : Settings) (request : Request)
| ActFileMethod (path : string) (confine : option confine_opt)
    (responseOptions : Options) (request : Request)
| ActPrepare (w : World) (id : nat)
| ActMarshalBegin (id : nat)
| ActMarshalResume (w : World) (id : nat)
| ActDirectory (w : World) (settings : DirectorySettings) (request : Request).

Inductive Outcome :=
| OutHandler (r : Result HandlerResult)
| OutResponse (r : Result Response)
| OutSuspended
| OutBody (r : Result string)
| OutIdle.

Definition keep_response (r : Result Response) (responses : gmap nat Response)
    : gmap nat Response :=
  match r with
  | Ok resp => <[rid resp := resp]> responses
  | Throw _ => responses
  end.

Definition step (a : Action) (sys : System) : Outcome * System :=
  match a with
  | ActFileHandler settings request =>
      let '(r, st) := fileHandler settings request (sys_state sys) in
      (OutHandler r,
       {| sys_state := st;
          sys_responses :=
            match r with
            | Ok (Built resp) => <[rid resp := resp]> (sys_responses sys)
            | _ => sys_responses sys
            end;
          sys_pending := sys_pending sys |})
  | ActFileMethod path confine responseOptions request =>
      let '(r, st) := fileMethod path confine responseOptions request (sys_state sys) in
      (OutResponse r,
       {| sys_state := st;
          sys_responses := keep_response r (sys_responses sys);
          sys_pending := sys_pending sys |})
  | ActPrepare w id =>
      match sys_responses sys !! id with
      | Some response =>
          let '(r, st) := prepare etag_header w response (sys_state sys) in
          (OutResponse r,
           {| sys_state := st;
              sys_responses := keep_response r (sys_responses sys);
              sys_pending := sys_pending sys |})
      | None => (OutIdle, sys)
      end
  | ActMarshalBegin id =>
      match sys_responses sys !! id with
      | Some response =>
          match marshal_begin response (sys_state sys) with
          | (Ok (inl (response, output)), st) =>
              (OutBody (Ok output),
               {| sys_state := st;
                  sys_responses := <[id := response]> (sys_responses sys);
                  sys_pending := sys_pending sys |})
          | (Ok (inr pending), st) =>
              (OutSuspended,
               {| sys_state := st;
                  sys_responses := sys_responses sys;
                  sys_pending := <[id := pending]> (sys_pending sys) |})
          | (Throw e, st) =>
              (OutBody (Throw e),
               {| sys_state := st;
                  sys_responses := sys_responses sys;
                  sys_pending := sys_pending sys |})
          end
      | None => (OutIdle, sys)
      end
  | ActMarshalResume w id =>
      match sys_pending sys !! id with
      | Some pending =>
          let '(r, st) := marshal_resume w pending (sys_state sys) in
          (OutBody (match r with Ok (_, output) => Ok output | Throw e => Throw e end),
           {| sys_state := st;
              sys_responses :=
                match r with
                | Ok (response, _) => <[id := response]> (sys_responses sys)
                | Throw _ => sys_responses sys
                end;
              sys_pending := delete id (sys_pending sys) |})
      | None => (OutIdle, sys)
      end
  | ActDirectory w settings request =>
      let '(r, st) :=
        directory_handler (load etag_header w) settings request (sys_state sys) in
      (OutResponse r,
       {| sys_state := st;
          sys_responses := keep_response r (sys_responses sys);
          sys_pending := sys_pending sys |})
  end.

Fixpoint run (acts : list Action) (sys : System) : list (Action * Outcome) * System :=
  match acts with
  | [] => ([], sys)
  | a :: rest =>
      let '(o, sys') := step a sys in
      let '(trace, sys'') := run rest sys' in
      ((a, o) :: trace, sys'')
  end.


(** [a] run in [sys] puts [v] under [k] where it was not before. *)
Definition writes (a : Action) (sys : System) (k : string) (v : CacheValue) : Prop :=
  cache (sys_state (step a sys).2) !! k = Some v ∧
  cache (sys_state sys) !! k ≠ Some v.

(** The systems the server can be in: those a schedule leads to from
    the start. *)
Definition reachable (sys : System) : Prop :=
  ∃ acts, sys = (run acts initial_system).2.

(** A suspended marshal holds the path of its response and the two
    headers the response had when it was suspended. *)
Definition pending_wf (sys : System) : Prop :=
  ∀ id p, sys_pending sys !! id = Some p →
    pend_path p = src_path (source (pend_response p)) ∧
    pend_mtime p = header_of (pend_response p) "last-modified" ∧
    pend_etag p = header_of (pend_response p) "etag".

(** No marshal that missed the cache for [k] is suspended. *)
Definition no_pending_for (k : string) (sys : System) : Prop :=
  ∀ id p, sys_pending sys !! id = Some p → key_of (pend_path p) ≠ k.

End Scheduler.

(** ** Sample inputs

    A site rooted at /srv whose stylesheets live in /srv/www, next to a
    directory /srv/www-secret. *)
Module Sample.

Definition quote : string := String (ascii_of_nat 34) EmptyString.

(** hapi's [response.etag(tag, { vary: true })] sets the header to
    ['"' + tag + '"']: the tag, as a string, between double quotes. *)
Definition etag_header (tag : jsval) : jsval :=
  JStr (quote +:+ to_string tag +:+ quote).

Definition request : Request :=
  {| relativeTo := "/srv"; req_path := "/css/site.css";
     req_param := Some "site.css"; cwd := "/" |}.

Definition confined_www : Options := with_confine (ConfineStr "www") default_options.

Definition stat_v1 : Stat := {| mtime_utc := "Mon, 01 Jan 2024 00:00:00 GMT"; stat_size := 12 |}.
Definition stat_v2 : Stat := {| mtime_utc := "Tue, 02 Jan 2024 00:00:00 GMT"; stat_size := 15 |}.

(** A filesystem holding /srv/www/site.css and /srv/www/styles.css. *)
Definition present (path : string) : bool :=
  String.eqb path "/srv/www/site.css" || String.eqb path "/srv/www/styles.css".

Definition world_of (stat : Stat) (tag text : string) : World :=
  {| openStat := λ path, if present path then Ok stat else Throw Boom_notFound;
     etag_apply := λ _ _, Ok (Some (JStr tag));
     readFile := λ path, if present path then Ok text
                         else Throw (SystemError "ENOENT");
     postcss_process := λ data, Ok {| css := data |} |}.

Definition world_v1 : World := world_of stat_v1 "v1" "a{color:red}".
Definition world_v2 : World := world_of stat_v2 "v2" "a{color:blue}".

(** The same filesystem with an etag computation that fails. *)
Definition world_etag_fails : World :=
  {| openStat := openStat world_v1;
     etag_apply := λ _ _, Throw (SystemError "EIO");
     readFile := readFile world_v1;
     postcss_process := postcss_process world_v1 |}.

Definition source_of (path : jspath) : Source :=
  {| src_path := path; src_settings := Some confined_www; src_file := None |}.

Definition response_for (path : jspath) : Response :=
  {| rid := 0; headers := ∅; source := source_of path; has_prepare := true |}.

Definition response_site : Response := response_for (PathStr "/srv/www/site.css").
Definition response_missing : Response := response_for (PathStr "/srv/www/missing.css").
Definition response_denied : Response := response_for PathNull.

(** A state whose cache holds the full record of /srv/www/site.css. *)
Definition record_v1 : CacheValue :=
  FullRecord (JStr (mtime_utc stat_v1)) (JStr "v1") {| css := "a{color:red}" |} 12.

Definition state_cached : State :=
  {| cache := {[ "/srv/www/site.css" := record_v1 ]}; next_rid := 1;
     events := []; open_files := [] |}.

(** The directory route /css/{path*} over the directory www, with the
    default extension css, asked for /css/styles. *)
Definition request_styles : Request :=
  {| relativeTo := "/srv"; req_path := "/css/styles";
     req_param := Some "styles"; cwd := "/" |}.

Definition directory_settings (paths : list string) (ext : option string)
    : DirectorySettings :=
  {| dir_path := DirArray paths; dir_showHidden := false;
     dir_lookupCompressed := false; dir_etagMethod := None;
     dir_defaultExtension := ext |}.

(** A [File.load] that fails as the filesystem does: not-found for a
    file that is missing. *)
Definition plain_load (w : World) (path : string) (request : Request)
    (options : Options) : M Response :=
  resp ← fileResponse path options request true;
  match src_path (source resp) with
  | PathStr p => _ ← lift_result (openStat w p); mret resp
  | _ => throw (Boom_forbidden (Some "EACCES"))
  end.

(** File handlers for site.css, configured with a relative and with an
    absolute path. *)
Definition handler_relative : Settings :=
  {| set_path := PathString "site.css"; set_options := confined_www |}.


(** A request served through [h.css('site.css', { confine: 'www' })]. *)
Definition css_request : Action :=
  ActFileMethod "site.css" (Some (ConfineStr "www")) default_options request.

(** Two requests for site.css overlap. Request 0 is prepared and misses
    the cache in marshal; the file changes; request 1 is prepared, misses
    too, and its transformation finishes first. *)
Definition race_before : list Action :=
  [ css_request; ActPrepare world_v1 0; ActMarshalBegin 0;
    css_request; ActPrepare world_v2 1; ActMarshalBegin 1;
    ActMarshalResume world_v2 1 ].

(** Request 2 is then prepared, the transformation of request 0
    finishes, and request 3 is prepared. *)
Definition race_after : list Action :=
  [ css_request; ActPrepare world_v2 2;
    ActMarshalResume world_v1 0;
    css_request; ActPrepare world_v2 3 ].



(** One request for site.css served to the end through [h.css], and
    a second one that follows it. *)
Definition first_request : list Action :=
  [ css_request; ActPrepare world_v1 0; ActMarshalBegin 0;
    ActMarshalResume world_v1 0 ].

Definition second_request : list Action :=
  [ css_request; ActPrepare world_v2 1; ActMarshalBegin 1 ].

(** File handlers whose configured path is one of the two names the
    cache object treats specially. *)
Definition handler_hasOwnProperty : Settings :=
  {| set_path := PathString "hasOwnProperty"; set_options := confined_www |}.


(** After the first request, the route of [handler_hasOwnProperty] is
    served once, and another request for site.css is prepared. *)
Definition request_after_hasOwnProperty : list Action :=
  [ ActFileHandler handler_hasOwnProperty request;
    css_request; ActPrepare world_v2 2 ].

(** The system a schedule leads to, and what its steps returned. *)
Definition after (acts : list Action) (sys : System) : System :=
  (run etag_header acts sys).2.

Definition outcomes (acts : list Action) (sys : System) : list Outcome :=
  (run etag_header acts sys).1.*2.

(** A system with the full record in its cache and nothing suspended,
    and a request that arrives after the file has changed. *)
Definition system_cached : System :=
  {| sys_state := state_cached; sys_responses := ∅; sys_pending := ∅ |}.

Definition later_request : list Action :=
  [ css_request; ActPrepare world_v2 1; ActMarshalBegin 1 ].

(** A first request suspended in marshal. *)
Definition system_suspended : System :=
  after [ css_request; ActPrepare world_v1 0; ActMarshalBegin 0 ] initial_system.

(** A request for a hidden path, one for a directory-like path ending in
    '/', and directory settings whose directories come from a function. *)
Definition request_hidden : Request :=
  {| relativeTo := "/srv"; req_path := "/css/.git/config";
     req_param := Some ".git/config"; cwd := "/" |}.

Definition request_slash : Request :=
  {| relativeTo := "/srv"; req_path := "/css/styles/";
     req_param := Some "styles/"; cwd := "/" |}.

Definition function_settings (result : PathResult) : DirectorySettings :=
  {| dir_path := DirFunction (λ _, result); dir_showHidden := false;
     dir_lookupCompressed := false; dir_etagMethod := None;
     dir_defaultExtension := None |}.

(** Options with a byte range, and a response whose file cannot be read. *)
Definition ranged (start end_ : option Z) : Options :=
  {| opt_confine := ConfineStr "www"; opt_mode := None; opt_etagMethod := None;
     opt_lookupCompressed := false; opt_start := start; opt_end := end_ |}.

Definition invalid_mode : Options :=
  {| opt_confine := ConfineStr "www"; opt_mode := Some "download";
     opt_etagMethod := None; opt_lookupCompressed := false;
     opt_start := None; opt_end := None |}.

End Sample.

(** ** Candidates that are passed over

    [skipped each pre s s']: tried one after the other from state [s], in
    the order of the list, every candidate of [pre] fails with a not-found
    error, and the last one leaves the state [s']. *)
Inductive skipped (each : string → M Response) : list string → State → State → Prop :=
| skipped_nil s : skipped each [] s s
| skipped_cons baseDir rest s e s1 s2 :
    each baseDir s = (Throw e, s1) →
    isBoom e = true →
    isNotFound e = true →
    skipped each rest s1 s2 →
    skipped each (baseDir :: rest) s s2.

(** * Properties *)

(** Unfolds the monad operations so that a computation becomes a plain
    match on results and states. *)
Ltac run_monad :=
  unfold Hoek_assert, log_event, hold_handle, cache_get, cache_set,
    generateResponse, Bounce_ignore_boom, lift_result, try_catch, throw,
    mbind, M_bind, mret, M_ret in *.

Ltac split_result :=
  repeat match goal with
  | H : (_, _) = (_, _) |- _ => inversion H; subst; clear H
  | H : context [match ?x with _ => _ end] |- _ =>
      let E := fresh "E" in destruct x eqn:E; try discriminate
  end.

(** ** The cache object *)

Lemma get_Ok key own r :
  InMemoryCache.get key own = Ok r ↔ own !! "hasOwnProperty" = None ∧ r = own !! key.
Proof.
  unfold InMemoryCache.get. destruct (own !! "hasOwnProperty"); split.
  - done.
  - by intros [? _].
  - by intros [= <-].
  - by intros [_ ->].
Qed.

Lemma get_Throw key own e :
  InMemoryCache.get key own = Throw e ↔
    is_Some (own !! "hasOwnProperty") ∧
    e = TypeError "this.cache.hasOwnProperty is not a function".
Proof.
  unfold InMemoryCache.get. destruct (own !! "hasOwnProperty"); split.
  - intros [= <-]. eauto.
  - by intros [_ ->].
  - done.
  - by intros [[? ?] _].
Qed.

Lemma set_ordinary key data own :
  key ≠ "__proto__" → InMemoryCache.set key data own = <[key := data]> own.
Proof.
  intros Hk. unfold InMemoryCache.set.
  by rewrite (proj2 (String.eqb_neq _ _) Hk).
Qed.

Lemma lookup_set key data own k :
  InMemoryCache.set key data own !! k = own !! k ∨
  (k = key ∧ key ≠ "__proto__" ∧ InMemoryCache.set key data own !! k = Some data).
Proof.
  unfold InMemoryCache.set. destruct (String.eqb_spec key "__proto__") as [->|Hk].
  - by left.
  - destruct (decide (k = key)) as [->|Hne].
    + right. by rewrite lookup_insert_eq.
    + left. by rewrite lookup_insert_ne.
Qed.

Lemma get_set_ordinary key data own r :
  InMemoryCache.ordinary key = true →
  InMemoryCache.get key own = Ok r →
  InMemoryCache.get key (InMemoryCache.set key data own) = Ok (Some data).
Proof.
  intros Hk Hg. apply get_Ok in Hg as (Hown & _).
  apply andb_true_iff in Hk as [Hp Hh].
  apply negb_true_iff, String.eqb_neq in Hp, Hh.
  apply get_Ok. rewrite set_ordinary by done.
  rewrite lookup_insert_ne by done. by rewrite lookup_insert_eq.
Qed.

(** ** Confinement (C1) *)

(** Under a truthy [confine], the source path of the response is the
    denied sentinel or has the resolved confinement directory as a textual
    prefix, for relative and absolute raw paths alike. *)
Lemma fileResponse_confined_prefix path options request preloaded s r s' :
  confine_truthy (opt_confine options) = true →
  fileResponse path options request preloaded s = (Ok r, s') →
  ∃ dir, opt_confine options = ConfineStr dir ∧
    (src_path (source r) = PathNull ∨
     ∃ p, src_path (source r) = PathStr p ∧
          String.prefix (Path.resolve (cwd request) [relativeTo request; dir]) p = true).
Proof.
  intros Hc H. unfold fileResponse, resolve_confine in H. rewrite Hc in H.
  run_monad.
  destruct (valid_mode (opt_mode options)); [|discriminate].
  destruct (opt_confine options) as [| |dir]; try discriminate.
  exists dir. split; [done|].
  unfold lastIndexOf_from0 in H.
  destruct (String.prefix _ _) eqn:Hp; simpl in H; inversion H; subst; simpl.
  - right. eauto.
  - by left.
Qed.

(** C1, at a failing input. With the confinement directory /srv/www, the
    relative path ../www-secret/x and the absolute path /srv/www-secret/x
    both pass the prefix test, because the text /srv/www-secret/x starts
    with /srv/www; the path returned names a file of the sibling directory
    /srv/www-secret, outside /srv/www. *)
Theorem fileResponse_confine_sibling_escape :
  Path.resolve "/" ["/srv"; "www"] = "/srv/www" ∧
  (∃ r s', fileResponse "../www-secret/x" Sample.confined_www Sample.request
             false initial_state = (Ok r, s') ∧
           src_path (source r) = PathStr "/srv/www-secret/x") ∧
  (∃ r s', fileResponse "/srv/www-secret/x" Sample.confined_www Sample.request
             false initial_state = (Ok r, s') ∧
           src_path (source r) = PathStr "/srv/www-secret/x") ∧
  String.prefix "/srv/www" "/srv/www-secret/x" = true ∧
  Path.within "/srv/www" "/srv/www-secret/x" = false ∧
  Path.within "/srv/www" "/srv/www/x" = true.
Proof.
  split; [reflexivity|].
  split; [eexists _, _; split; [vm_compute; reflexivity | reflexivity]|].
  split; [eexists _, _; split; [vm_compute; reflexivity | reflexivity]|].
  repeat split; reflexivity.
Qed.

Section Properties.

Variable etag_header : jsval → jsval.

(** ** What each function does to the cache *)

Lemma fileResponse_frame path options request preloaded s r s' :
  fileResponse path options request preloaded s = (r, s') →
  cache s' = cache s ∧ events s' = events s ∧ open_files s' = open_files s.
Proof.
  unfold fileResponse, resolve_confine. run_monad. intros H.
  repeat (case_match; simplify_eq/=); done.
Qed.

Lemma prepare_cache w response s r s' :
  prepare etag_header w response s = (r, s') → cache s' = cache s.
Proof.
  unfold prepare, file_openStat, Etag_apply, internals_close. run_monad. intros H.
  repeat (case_match; simplify_eq/=); done.
Qed.

Lemma load_cache w path request options s r s' :
  load etag_header w path request options s = (r, s') → cache s' = cache s.
Proof.
  unfold load. unfold mbind, M_bind. intros H.
  destruct (fileResponse _ _ _ _ _) as [[resp|e] s1] eqn:E1.
  - apply fileResponse_frame in E1 as (<- & _). by eapply prepare_cache.
  - simplify_eq. by apply fileResponse_frame in E1 as (-> & _).
Qed.

Lemma each_cache File_load settings request selection slash baseDir s r s' :
  (∀ path req options s r s', File_load path req options s = (r, s') → cache s' = cache s) →
  each File_load settings request selection slash baseDir s = (r, s') →
  cache s' = cache s.
Proof.
  intros HL. unfold each. run_monad. intros H.
  destruct (File_load _ _ _ s) as [[resp|e] s1] eqn:E1.
  - simplify_eq. eauto.
  - apply HL in E1 as <-.
    repeat (case_match; simplify_eq/=); eauto.
Qed.

Lemma directory_loop_cache (each : string → M Response) paths :
  (∀ d s r s', each d s = (r, s') → cache s' = cache s) →
  ∀ s r s', directory_loop each paths s = (r, s') → cache s' = cache s.
Proof.
  intros HE. induction paths as [|d rest IH]; intros s r s' H; simpl in H.
  - run_monad. by simplify_eq.
  - run_monad. destruct (each d s) as [[resp|e] s1] eqn:E1.
    + simplify_eq. eauto.
    + apply HE in E1 as <-.
      repeat (case_match; simplify_eq/=); eauto.
Qed.

Lemma directory_handler_cache w settings request s r s' :
  directory_handler (load etag_header w) settings request s = (r, s') →
  cache s' = cache s.
Proof.
  unfold directory_handler, resolvePathOption. run_monad. intros H.
  assert (∀ paths s0, directory_loop
            (each (load etag_header w) settings request (req_param request)
               (Path.endsWithSep (req_path request))) paths s0 = (r, s') →
          cache s' = cache s0) as Hloop.
  { intros paths s0. apply directory_loop_cache.
    intros d s1 r1 s1'. apply each_cache.
    intros path req options s2 r2 s2'. apply load_cache. }
  repeat (case_match; simplify_eq/=); eauto.
  by apply (Hloop [path]).
Qed.

Lemma marshal_begin_state response s r s' :
  marshal_begin response s = (r, s') → s' = s.
Proof.
  unfold marshal_begin, source_settings. run_monad. intros H.
  repeat (case_match; simplify_eq/=); done.
Qed.

Lemma marshal_resume_cache w p s r s' :
  marshal_resume w p s = (r, s') →
  cache s' = cache s ∨
  ∃ data, cache s' = InMemoryCache.set (key_of (pend_path p))
                       (FullRecord (pend_mtime p) (pend_etag p) data (css_length data))
                       (cache s).
Proof.
  unfold marshal_resume, processCSS, source_settings. run_monad. intros H.
  repeat (case_match; simplify_eq/=); eauto.
Qed.

Lemma fileHandler_cache settings request s r s' :
  fileHandler settings request s = (r, s') →
  cache s' = cache s ∨
  ∃ resp, r = Ok (Built resp) ∧
          InMemoryCache.get (configured_path settings request) (cache s) = Ok None ∧
          cache s' = InMemoryCache.set (configured_path settings request)
                       (Descriptor (rid resp)) (cache s).
Proof.
  unfold fileHandler. run_monad. intros H.
  destruct (InMemoryCache.get _ _) as [[v|]|e0] eqn:Ec; try (simplify_eq; by left).
  destruct (fileResponse _ _ _ _ _) as [[resp|e] s1] eqn:E1;
    apply fileResponse_frame in E1 as (E1 & _); simplify_eq/=.
  - right. exists resp. by rewrite E1.
  - by left.
Qed.

Lemma fileMethod_cache path confine options request s r s' :
  fileMethod path confine options request s = (r, s') → cache s' = cache s.
Proof.
  unfold fileMethod. run_monad. intros H.
  repeat (case_match; simplify_eq/=); try done;
    match goal with
    | E : fileResponse _ _ _ _ _ = _ |- _ => by apply fileResponse_frame in E as (? & _)
    end.
Qed.

(** ** Cache hits *)

Lemma prepare_hit w response s cached :
  src_path (source response) ≠ PathNull →
  InMemoryCache.get (key_of (src_path (source response))) (cache s) = Ok (Some cached) →
  ∃ r', prepare etag_header w response s = (Ok r', s) ∧
    rid r' = rid response ∧ source r' = source response ∧
    header_of r' "content-type" =
      (if truthy (header_of response "content-type")
       then header_of response "content-type" else JStr "text/css") ∧
    header_of r' "last-modified" =
      (if truthy (cached_mtime cached) then cached_mtime cached
       else header_of response "last-modified") ∧
    header_of r' "etag" =
      (if truthy (cached_etag cached) then etag_header (cached_etag cached)
       else header_of response "etag").
Proof.
  intros Hp Hc. unfold prepare. run_monad.
  destruct (src_path (source response)) eqn:Epath; [done| |];
    rewrite Hc; (eexists; split; [reflexivity|]);
    unfold header_of, response_etag, response_type, response_header;
    destruct (truthy (default JUndefined (headers response !! "content-type")));
    destruct (truthy (cached_mtime cached));
    destruct (truthy (cached_etag cached)); simpl;
    repeat split; by simplify_map_eq.
Qed.

Lemma marshal_begin_hit response s mtime etag data size settings :
  InMemoryCache.get (key_of (src_path (source response))) (cache s) =
    Ok (Some (FullRecord mtime etag data size)) →
  src_settings (source response) = Some settings →
  marshal_begin response s =
    (Ok (inl (set_source empty_source
                (response_bytes
                   (match opt_end settings with
                    | Some end_ => js_add (js_sub end_ (start_or_0 settings)) 1
                    | None => js_sub size (start_or_0 settings)
                    end)
                   (response_header "last-modified" mtime response)),
              css data)), s).
Proof.
  intros Hc Hs. unfold marshal_begin, source_settings. run_monad.
  cbv zeta. rewrite Hc. simpl. rewrite Hs. by destruct (opt_end settings).
Qed.

Lemma marshal_begin_miss response s v :
  InMemoryCache.get (key_of (src_path (source response))) (cache s) = Ok v →
  (∀ mtime etag data size, v ≠ Some (FullRecord mtime etag data size)) →
  marshal_begin response s =
    (Ok (inr {| pend_response := response;
                pend_path := src_path (source response);
                pend_mtime := header_of response "last-modified";
                pend_etag := header_of response "etag" |}), s).
Proof.
  intros Hg Hc. unfold marshal_begin. run_monad. cbv zeta. rewrite Hg.
  destruct v as [[m e d sz| |]|]; try done.
  by destruct (Hc m e d sz).
Qed.

Lemma marshal_caches_full w response s out s' :
  marshal w response s = (Ok out, s') →
  key_of (src_path (source response)) ≠ "__proto__" →
  ∃ mtime etag data size,
    cache s' !! key_of (src_path (source response)) = Some (FullRecord mtime etag data size).
Proof.
  unfold marshal, marshal_begin, marshal_resume, processCSS, source_settings.
  run_monad. intros H Hk.
  destruct (InMemoryCache.get _ _) as [v|e0] eqn:Eg; [|done].
  apply get_Ok in Eg as (_ & ->).
  repeat (case_match; simplify_eq/=); try (by eauto);
    eexists _, _, _, _; rewrite set_ordinary by done; apply lookup_insert_eq.
Qed.

Lemma marshal_resume_caches_full w p s out s' :
  marshal_resume w p s = (Ok out, s') →
  key_of (pend_path p) ≠ "__proto__" →
  ∃ data, cache s' !! key_of (pend_path p) =
            Some (FullRecord (pend_mtime p) (pend_etag p) data (css_length data)).
Proof.
  unfold marshal_resume, processCSS, source_settings. run_monad. intros H Hk.
  repeat (case_match; simplify_eq/=); eexists;
    rewrite set_ordinary by done; apply lookup_insert_eq.
Qed.

(** ** Steps of the scheduler *)

(** Every step leaves a cache entry as it was, or is a resumed marshal
    storing its full record under the path it looked up, or is a file
    handler storing the response it has just built under its configured
    path, which was free. *)
Lemma step_cache a sys k :
  cache (sys_state (step etag_header a sys).2) !! k = cache (sys_state sys) !! k ∨
  (∃ w id p data,
      a = ActMarshalResume w id ∧ sys_pending sys !! id = Some p ∧
      k = key_of (pend_path p) ∧
      cache (sys_state (step etag_header a sys).2) !! k =
        Some (FullRecord (pend_mtime p) (pend_etag p) data (css_length data))) ∨
  (∃ settings request resp,
      a = ActFileHandler settings request ∧
      k = configured_path settings request ∧
      cache (sys_state sys) !! k = None ∧
      (step etag_header a sys).1 = OutHandler (Ok (Built resp)) ∧
      cache (sys_state (step etag_header a sys).2) !! k = Some (Descriptor (rid resp))).
Proof.
  destruct a as [settings request|path confine options request|w id|id|w id
                |w settings request]; simpl.
  - destruct (fileHandler _ _ _) as [r st] eqn:E. simpl.
    apply fileHandler_cache in E as [->|(resp & -> & Hnone & ->)]; [by left|].
    apply get_Ok in Hnone as (_ & Hnone).
    destruct (lookup_set (configured_path settings request) (Descriptor (rid resp))
                (cache (sys_state sys)) k) as [->|(-> & _ & Hw)]; [by left|].
    right; right. by exists settings, request, resp.
  - destruct (fileMethod _ _ _ _ _) as [r st] eqn:E. simpl.
    apply fileMethod_cache in E as ->. by left.
  - destruct (sys_responses sys !! id) as [response|]; [|by left].
    destruct (prepare _ _ _ _) as [r st] eqn:E. simpl.
    apply prepare_cache in E as ->. by left.
  - destruct (sys_responses sys !! id) as [response|]; [|by left].
    destruct (marshal_begin _ _) as [r st] eqn:E.
    apply marshal_begin_state in E as ->.
    destruct r as [[[? ?]|?]|?]; by left.
  - destruct (sys_pending sys !! id) as [p|] eqn:Ep; [|by left].
    destruct (marshal_resume _ _ _) as [r st] eqn:E. simpl.
    apply marshal_resume_cache in E as [->|(data & ->)]; [by left|].
    destruct (lookup_set (key_of (pend_path p))
                (FullRecord (pend_mtime p) (pend_etag p) data (css_length data))
                (cache (sys_state sys)) k) as [->|(-> & _ & Hw)]; [by left|].
    right; left. by exists w, id, p, data.
  - destruct (directory_handler _ _ _ _) as [r st] eqn:E. simpl.
    apply directory_handler_cache in E as ->. by left.
Qed.

Lemma step_full_stays_full a sys k v :
  cache (sys_state sys) !! k = Some v → is_full v = true →
  ∃ v', cache (sys_state (step etag_header a sys).2) !! k = Some v' ∧ is_full v' = true.
Proof.
  intros Hk Hv.
  destruct (step_cache a sys k) as [->|[(w & id & p & data & _ & _ & _ & ->)
    |(? & ? & ? & _ & _ & Hnone & _)]]; [eauto|eauto|congruence].
Qed.


(** A full record with no suspended marshal for its key is pinned. *)
Lemma step_pinned a sys k v :
  cache (sys_state sys) !! k = Some v → is_full v = true →
  no_pending_for k sys →
  cache (sys_state (step etag_header a sys).2) !! k = Some v ∧
  no_pending_for k (step etag_header a sys).2.
Proof.
  intros Hk Hv Hp. split.
  - destruct (step_cache a sys k) as [->|[(w & id & p & data & _ & Hid & -> & _)
      |(? & ? & ? & _ & _ & Hnone & _)]]; [done| |congruence].
    by destruct (Hp id p Hid).
  - destruct a as [settings request|path confine options request|w id|id|w id
                  |w settings request]; simpl.
    + by destruct (fileHandler _ _ _).
    + by destruct (fileMethod _ _ _ _ _).
    + destruct (sys_responses sys !! id); [|done]. by destruct (prepare _ _ _ _).
    + destruct (sys_responses sys !! id) as [response|]; [|done].
      destruct (decide (key_of (src_path (source response)) = k)) as [<-|Hne].
      * destruct v as [m e d sz| |]; try done.
        unfold marshal_begin, source_settings. run_monad. cbv zeta.
        destruct (InMemoryCache.get _ _) as [v'|e0] eqn:Eg; [|done].
        apply get_Ok in Eg as (_ & ->). rewrite Hk. simpl.
        by destruct (src_settings (source response)).
      * destruct (marshal_begin _ _) as [[[[? ?]|pend]|?] st] eqn:E; try done.
        intros id' p'. simpl. destruct (decide (id' = id)) as [->|Hid].
        -- rewrite lookup_insert_eq. intros [= <-].
           unfold marshal_begin, source_settings in E. run_monad.
           repeat (case_match; simplify_eq/=); done.
        -- rewrite lookup_insert_ne; [|done]. apply Hp.
    + destruct (sys_pending sys !! id); [|done].
      destruct (marshal_resume _ _ _). simpl.
      intros id' p'. simpl. destruct (decide (id' = id)) as [->|Hid].
      * by rewrite lookup_delete_eq.
      * rewrite lookup_delete_ne; [|done]. apply Hp.
    + by destruct (directory_handler _ _ _ _).
Qed.

Lemma run_app acts1 acts2 sys :
  run etag_header (acts1 ++ acts2) sys =
    let '(t1, sys1) := run etag_header acts1 sys in
    let '(t2, sys2) := run etag_header acts2 sys1 in
    (t1 ++ t2, sys2).
Proof.
  revert sys. induction acts1 as [|a acts1 IH]; intros sys; simpl.
  - by destruct (run _ acts2 sys).
  - destruct (step _ a sys) as [o sys']. rewrite IH.
    destruct (run _ acts1 sys') as [t1 sys1].
    by destruct (run _ acts2 sys1).
Qed.

Lemma run_full_stays_full acts sys k v :
  cache (sys_state sys) !! k = Some v → is_full v = true →
  ∃ v', cache (sys_state (run etag_header acts sys).2) !! k = Some v' ∧ is_full v' = true.
Proof.
  revert sys v. induction acts as [|a acts IH]; intros sys v Hk Hv; simpl; [eauto|].
  destruct (step_full_stays_full a sys k v Hk Hv) as (v1 & Hk1 & Hv1).
  destruct (step _ a sys) as [o sys1]. simpl in *.
  destruct (IH sys1 v1 Hk1 Hv1) as (v2 & Hk2 & Hv2).
  destruct (run _ acts sys1). eauto.
Qed.

Lemma run_pinned acts sys k v :
  cache (sys_state sys) !! k = Some v → is_full v = true →
  no_pending_for k sys →
  cache (sys_state (run etag_header acts sys).2) !! k = Some v ∧
  no_pending_for k (run etag_header acts sys).2.
Proof.
  revert sys. induction acts as [|a acts IH]; intros sys Hk Hv Hp; simpl; [done|].
  destruct (step_pinned a sys k v Hk Hv Hp) as (Hk1 & Hp1).
  destruct (step _ a sys) as [o sys1]. simpl in *.
  destruct (IH sys1 Hk1 Hv Hp1) as (Hk2 & Hp2).
  by destruct (run _ acts sys1).
Qed.

(** ** prepare *)

(** When the cache object does not answer, its [TypeError] leaves
    [prepare] before anything else is done. Whatever fails after the
    lookup, what leaves the function is the [TypeError] of the handler's
    call to the missing [internals.close]. *)
Lemma prepare_throw_kinds w response s e s' :
  prepare etag_header w response s = (Throw e, s') →
  (src_path (source response) = PathNull ∧ e = Boom_forbidden (Some "EACCES") ∧ s' = s) ∨
  (src_path (source response) ≠ PathNull ∧
   (e = TypeError "internals.close is not a function" ∨
    e = TypeError "this.cache.hasOwnProperty is not a function" ∧ s' = s)).
Proof.
  unfold prepare, file_openStat, Etag_apply, internals_close. run_monad. intros H.
  destruct (src_path (source response)) eqn:Ep.
  - left. by simplify_eq.
  - right. split; [done|].
    destruct (InMemoryCache.get _ _) as [v|e0] eqn:Eg;
      [|apply get_Throw in Eg as (_ & ->); simplify_eq; by right].
    left. repeat (case_match; simplify_eq/=); done.
  - right. split; [done|].
    destruct (InMemoryCache.get _ _) as [v|e0] eqn:Eg;
      [|apply get_Throw in Eg as (_ & ->); simplify_eq; by right].
    left. repeat (case_match; simplify_eq/=); done.
Qed.

(** When the file is opened and the etag computation then fails, the
    error that propagates is not the one that was raised, and the handle
    stays open. *)
Lemma prepare_leaks_on_etag_failure w response s p stat e :
  src_path (source response) = PathStr p →
  InMemoryCache.get p (cache s) = Ok None →
  openStat w p = Ok stat →
  (∀ src, etag_apply w src stat = Throw e) →
  ∃ s', prepare etag_header w response s =
          (Throw (TypeError "internals.close is not a function"), s') ∧
        open_files s' = p :: open_files s ∧
        events s' = events s ++ [FsOpenStat p; EtagApply (PathStr p)].
Proof.
  intros Hp Hc Ho He.
  unfold prepare, file_openStat, Etag_apply, internals_close. run_monad.
  rewrite Hp. simpl. rewrite Hc, Ho. simpl. rewrite He. simpl.
  destruct (negb _); simpl; rewrite <- app_assoc; eauto.
Qed.

(** When the cache object does not answer, [prepare] (for a path that is
    not denied) and [marshal] fail with its error in the state they
    started from. *)
Lemma prepare_unanswered w response s e :
  src_path (source response) ≠ PathNull →
  InMemoryCache.get (key_of (src_path (source response))) (cache s) = Throw e →
  prepare etag_header w response s = (Throw e, s).
Proof.
  intros Hp Hg. unfold prepare. run_monad.
  destruct (src_path (source response)); [done| |]; by rewrite Hg.
Qed.

Lemma marshal_unanswered w response s e :
  InMemoryCache.get (key_of (src_path (source response))) (cache s) = Throw e →
  marshal w response s = (Throw e, s).
Proof.
  intros Hg. unfold marshal, marshal_begin. run_monad. cbv zeta. by rewrite Hg.
Qed.

(** With an entry under its path, [prepare] returns in the state it
    started from, with a response if the cache object answers. *)
Lemma prepare_on_entry w response s v :
  src_path (source response) ≠ PathNull →
  cache s !! key_of (src_path (source response)) = Some v →
  ∃ res, prepare etag_header w response s = (res, s) ∧
    (cache s !! "hasOwnProperty" = None → ∃ r', res = Ok r') ∧
    (∀ r', res = Ok r' → source r' = source response).
Proof.
  intros Hp Hv.
  destruct (InMemoryCache.get (key_of (src_path (source response))) (cache s))
    as [r|e] eqn:Eg.
  - apply get_Ok in Eg as Hg. destruct Hg as (Hown & ->). rewrite Hv in Eg.
    destruct (prepare_hit w response s v Hp Eg) as (r' & Hprep & _ & Hsrc & _).
    exists (Ok r'). split; [done|]. split; [by eauto|]. by intros ? [= <-].
  - apply get_Throw in Eg as Hg. destruct Hg as ((x & Hown) & _).
    exists (Throw e). split; [by apply prepare_unanswered|].
    split; [by rewrite Hown|done].
Qed.

(** With a full record under its path, [marshal] returns in the state it
    started from, with the body if the cache object answers. *)
Lemma marshal_on_full_record w response s v settings :
  cache s !! key_of (src_path (source response)) = Some v → is_full v = true →
  src_settings (source response) = Some settings →
  ∃ res, marshal w response s = (res, s) ∧
    (cache s !! "hasOwnProperty" = None → ∃ r' body, res = Ok (r', body)).
Proof.
  intros Hv Hf Hs.
  destruct (InMemoryCache.get (key_of (src_path (source response))) (cache s))
    as [r|e] eqn:Eg.
  - apply get_Ok in Eg as Hg. destruct Hg as (Hown & ->). rewrite Hv in Eg.
    destruct v as [m t d sz| |]; try done.
    eexists. split; [|by eauto].
    unfold marshal. unfold mbind at 1, M_bind at 1.
    by erewrite marshal_begin_hit.
  - apply get_Throw in Eg as Hg. destruct Hg as ((x & Hown) & _).
    exists (Throw e). split; [by apply marshal_unanswered|]. by rewrite Hown.
Qed.

(** A request whose resolved path has a cache entry when [prepare] runs
    gets the content type (if it had none), the cached last-modified
    value, and for etag what [response.etag] makes of the cached value;
    [prepare] returns in the state it started from: nothing is opened,
    nothing is stat'ed. And once a marshal for a resolved path other
    than [__proto__] has run to the end, then after any schedule a later
    [prepare] for that path returns in the state it started from, and
    after any further schedule so does [marshal]: no stat, no read, no
    transformation. Both return a result unless a store under
    [hasOwnProperty] has made the cache object unable to answer, in
    which case they throw its error. The first marshal may have run in
    one stretch or have been suspended and resumed. *)
Lemma cache_short_circuits :
  (∀ w response s cached,
     src_path (source response) ≠ PathNull →
     InMemoryCache.get (key_of (src_path (source response))) (cache s) =
       Ok (Some cached) →
     ∃ r', prepare etag_header w response s = (Ok r', s) ∧
       source r' = source response ∧
       header_of r' "content-type" =
         (if truthy (header_of response "content-type")
          then header_of response "content-type" else JStr "text/css") ∧
       header_of r' "last-modified" =
         (if truthy (cached_mtime cached) then cached_mtime cached
          else header_of response "last-modified") ∧
       header_of r' "etag" =
         (if truthy (cached_etag cached) then etag_header (cached_etag cached)
          else header_of response "etag")) ∧
  (∀ w1 r1 p1 s0 out s1 path,
     path ≠ "__proto__" →
     (src_path (source r1) = PathStr path ∧ marshal w1 r1 s0 = (Ok out, s1)) ∨
     (pend_path p1 = PathStr path ∧ marshal_resume w1 p1 s0 = (Ok out, s1)) →
     ∀ responses pending acts1 w2 r2 settings,
       src_path (source r2) = PathStr path →
       src_settings (source r2) = Some settings →
       let sys1 := (run etag_header acts1
                      {| sys_state := s1; sys_responses := responses;
                         sys_pending := pending |}).2 in
       ∃ res, prepare etag_header w2 r2 (sys_state sys1) = (res, sys_state sys1) ∧
         (cache (sys_state sys1) !! "hasOwnProperty" = None → ∃ r2', res = Ok r2') ∧
         ∀ r2', res = Ok r2' →
           ∀ acts2 w3,
             let sys2 := (run etag_header acts2 sys1).2 in
             ∃ res', marshal w3 r2' (sys_state sys2) = (res', sys_state sys2) ∧
               (cache (sys_state sys2) !! "hasOwnProperty" = None →
                ∃ r2'' body, res' = Ok (r2'', body))).
Proof.
  split.
  - intros w response s cached Hp Hc.
    destruct (prepare_hit w response s cached Hp Hc) as (r' & ? & ? & ? & ? & ? & ?).
    eauto 10.
  - intros w1 r1 p1 s0 out s1 path Hproto Hfirst responses pending acts1 w2 r2 settings
      Hp2 Hs2 sys1.
    assert (∃ m e d sz, cache s1 !! path = Some (FullRecord m e d sz))
      as (m & e & d & sz & Hfull).
    { destruct Hfirst as [[Hp1 Hm]|[Hp1 Hm]].
      - apply marshal_caches_full in Hm as (m & e & d & sz & Hfull);
          rewrite Hp1 in *; by eauto.
      - apply marshal_resume_caches_full in Hm as (d & Hfull);
          rewrite Hp1 in *; by eauto. }
    destruct (run_full_stays_full acts1
                {| sys_state := s1; sys_responses := responses; sys_pending := pending |}
                path _ Hfull eq_refl) as (v1 & Hv1 & Hf1).
    fold sys1 in Hv1.
    destruct (prepare_on_entry w2 r2 (sys_state sys1) v1) as (res & Hprep & Hok & Hsrc).
    { by rewrite Hp2. }
    { by rewrite Hp2. }
    exists res. split; [done|]. split; [done|].
    intros r2' -> acts2 w3 sys2. specialize (Hsrc r2' eq_refl).
    destruct (run_full_stays_full acts2 sys1 path v1 Hv1 Hf1) as (v2 & Hv2 & Hf2).
    fold sys2 in Hv2.
    apply (marshal_on_full_record w3 r2' (sys_state sys2) v2 settings).
    + by rewrite Hsrc, Hp2.
    + done.
    + by rewrite Hsrc.
Qed.

(** C9. A denied path makes [prepare] fail with the forbidden error of
    code EACCES in the state it started from, so before any access to the
    filesystem; that error does not count as not-found, which the
    not-found error does; and no path other than the denied one ever
    yields it. *)
Theorem prepare_denied_is_forbidden w response s :
  src_path (source response) = PathNull →
  prepare etag_header w response s = (Throw (Boom_forbidden (Some "EACCES")), s) ∧
  Boom_forbidden (Some "EACCES") = Boom 403 (Some "EACCES") ∧
  isNotFound (Boom_forbidden (Some "EACCES")) = false ∧
  isNotFound Boom_notFound = true ∧
  (∀ w' response' s',
     src_path (source response') ≠ PathNull →
     (prepare etag_header w' response' s').1 ≠ Throw (Boom_forbidden (Some "EACCES"))).
Proof.
  intros Hp. split; [|repeat split].
  - unfold prepare. by rewrite Hp.
  - intros w' response' s' Hp' H.
    destruct (prepare _ w' response' s') as [r s''] eqn:E. simpl in H. subst r.
    apply prepare_throw_kinds in E as [(? & _)|(_ & [?|(? & _)])]; done.
Qed.

(** ** marshal *)

Lemma start_or_0_default settings :
  start_or_0 settings = default 0 (opt_start settings).
Proof.
  unfold start_or_0. destruct (opt_start settings) as [start|]; [|done].
  simpl. destruct (Z.eqb_spec start 0); by subst.
Qed.

Lemma round_double_exact z : - 2 ^ 53 ≤ z ≤ 2 ^ 53 → round_double z = z.
Proof.
  intros H. unfold round_double.
  destruct (Z.leb_spec (Z.abs z) (2 ^ 53)); [done|lia].
Qed.

(** C6. With [start] defaulting to 0, the content-length header that
    [marshal] sets is [end - start + 1] when [end] is defined and
    [size - start] otherwise, where [size] is the size of the cached full
    record on a hit and the length of the css just computed on a miss. A
    hit (the cache answers with a full record) always gets there; a miss
    gets there when the file is read and transformed, and then stores
    that length as the record's size. The two expressions are computed
    on JavaScript numbers: as long as the difference stays within 2^53
    in magnitude the header is the exact integer. *)
Theorem marshal_byte_length w response s settings :
  src_settings (source response) = Some settings →
  let start := default 0 (opt_start settings) in
  let bytes size :=
    match opt_end settings with
    | Some end_ => js_add (js_sub end_ start) 1
    | None => js_sub size start
    end in
  let key := key_of (src_path (source response)) in
  (∀ mtime etag data size,
     InMemoryCache.get key (cache s) = Ok (Some (FullRecord mtime etag data size)) →
     ∃ r', marshal w response s = (Ok (r', css data), s) ∧
           header_of r' "content-length" = JNum (bytes size)) ∧
  (∀ v p text data,
     InMemoryCache.get key (cache s) = Ok v →
     (∀ mtime etag d size, v ≠ Some (FullRecord mtime etag d size)) →
     src_path (source response) = PathStr p →
     readFile w p = Ok text →
     postcss_process w text = Ok data →
     ∃ r' s', marshal w response s = (Ok (r', css data), s') ∧
       header_of r' "content-length" = JNum (bytes (Z.of_nat (String.length (css data)))) ∧
       cache s' =
         InMemoryCache.set key
           (FullRecord (header_of response "last-modified")
              (header_of response "etag") data
              (Z.of_nat (String.length (css data)))) (cache s)) ∧
  (∀ r' body s',
     marshal w response s = (Ok (r', body), s') →
     header_of r' "content-length" =
       JNum (bytes (match InMemoryCache.get key (cache s) with
                    | Ok (Some (FullRecord _ _ _ size)) => size
                    | _ => Z.of_nat (String.length body)
                    end))) ∧
  (∀ size,
     match opt_end settings with
     | Some end_ => - 2 ^ 53 ≤ end_ - start < 2 ^ 53 → bytes size = end_ - start + 1
     | None => - 2 ^ 53 ≤ size - start ≤ 2 ^ 53 → bytes size = size - start
     end).
Proof.
  intros Hs start bytes key. subst start bytes key.
  rewrite <- start_or_0_default. split_and!.
  - intros mtime etag data size Hc. unfold marshal.
    unfold mbind at 1, M_bind at 1. erewrite marshal_begin_hit; [|done..].
    eexists. split; [reflexivity|].
    unfold header_of, response_bytes, response_header, set_source. simpl.
    rewrite lookup_insert_eq. by destruct (opt_end settings).
  - intros v p text data Hg Hc Hp Hr Ht. unfold marshal.
    unfold mbind at 1, M_bind at 1. rewrite (marshal_begin_miss _ _ v); [|done..].
    unfold marshal_resume, processCSS, source_settings, css_length. run_monad.
    simpl. rewrite Hp, Hs. simpl. rewrite Hr. simpl. rewrite Ht. simpl.
    eexists _, _. split; [reflexivity|]. split; [|done].
    unfold header_of, response_bytes, response_header, set_source.
    destruct (opt_end settings); simpl; by rewrite lookup_insert_eq.
  - intros r' body s'.
    unfold marshal, marshal_begin, marshal_resume, processCSS, source_settings,
      css_length.
    run_monad. cbv zeta.
    destruct (InMemoryCache.get _ _) as [[[m e d sz| |]|]|e0] eqn:Ec; simpl; rewrite ?Hs;
      intros H; repeat (case_match; simplify_eq/=);
      unfold header_of, response_bytes, response_header; simpl;
      by rewrite lookup_insert_eq.
  - intros size. unfold js_add, js_sub. destruct (opt_end settings) as [end_|].
    + intros H. rewrite (round_double_exact (end_ - _)) by lia.
      apply round_double_exact. lia.
    + apply round_double_exact.
Qed.

(** ** The file handler *)







Lemma step_pending_wf a sys :
  pending_wf sys → pending_wf (step etag_header a sys).2.
Proof.
  intros Hwf.
  destruct a as [settings request|path confine options request|w id|id|w id
                |w settings request]; simpl.
  - by destruct (fileHandler _ _ _).
  - by destruct (fileMethod _ _ _ _ _).
  - destruct (sys_responses sys !! id) as [response|]; [|done].
    by destruct (prepare _ _ _ _).
  - destruct (sys_responses sys !! id) as [response|]; [|done].
    destruct (marshal_begin _ _) as [[[[? ?]|pend]|?] st] eqn:E; try done.
    intros id' p'. simpl. destruct (decide (id' = id)) as [->|Hid].
    + rewrite lookup_insert_eq. intros [= <-].
      unfold marshal_begin, source_settings in E. run_monad.
      repeat (case_match; simplify_eq/=); done.
    + rewrite lookup_insert_ne; [|done]. apply Hwf.
  - destruct (sys_pending sys !! id); [|done].
    destruct (marshal_resume _ _ _). simpl.
    intros id' p'. simpl. destruct (decide (id' = id)) as [->|Hid].
    + by rewrite lookup_delete_eq.
    + rewrite lookup_delete_ne; [|done]. apply Hwf.
  - by destruct (directory_handler _ _ _ _).
Qed.

Lemma reachable_pending_wf sys :
  reachable etag_header sys → pending_wf sys.
Proof.
  intros [acts ->].
  assert (∀ sys0, pending_wf sys0 →
                  pending_wf (run etag_header acts sys0).2) as Hrun.
  { induction acts as [|a acts IH]; intros sys0 Hwf; simpl; [done|].
    apply (step_pending_wf a) in Hwf.
    destruct (step _ a sys0) as [o sys1]. simpl in Hwf.
    specialize (IH sys1 Hwf). by destruct (run _ acts sys1). }
  apply Hrun. intros id p. simpl. by rewrite lookup_empty.
Qed.

(** ** What is written into the cache *)

(** C4, as the code has it. In a reachable system a step puts a new value
    under a key in two cases only: a marshal resumes and stores, under the
    resolved path of its response, the full record made of the response's
    last-modified and etag headers, the transformation result and the
    length of its css; or the file handler stores, under its configured
    path, the response it has just built. A record with the two headers
    only is never written. *)
Theorem cache_writes_characterised a sys k v :
  reachable etag_header sys →
  writes etag_header a sys k v →
  ((∃ w id p data,
      a = ActMarshalResume w id ∧ sys_pending sys !! id = Some p ∧
      k = key_of (src_path (source (pend_response p))) ∧
      v = FullRecord (header_of (pend_response p) "last-modified")
            (header_of (pend_response p) "etag") data
            (Z.of_nat (String.length (css data)))) ∨
   (∃ settings request resp,
      a = ActFileHandler settings request ∧
      k = configured_path settings request ∧
      (step etag_header a sys).1 = OutHandler (Ok (Built resp)) ∧
      v = Descriptor (rid resp))) ∧
  (∀ mtime etag, v ≠ MetaRecord mtime etag).
Proof.
  intros Hr [Hafter Hbefore].
  apply reachable_pending_wf in Hr.
  assert (∀ A B : Prop, (A ∨ B) → (A ∨ B → ∀ mtime etag, v ≠ MetaRecord mtime etag) →
            (A ∨ B) ∧ ∀ mtime etag, v ≠ MetaRecord mtime etag) as Hsplit by tauto.
  apply Hsplit; clear Hsplit.
  - destruct (step_cache a sys k) as [Heq|[(w & id & p & data & -> & Hid & -> & Hw)
      |(settings & request & resp & -> & -> & _ & Ho & Hw)]].
    + rewrite Heq in Hafter. done.
    + left. exists w, id, p, data.
      destruct (Hr id p Hid) as (Hpath & Hm & He).
      rewrite Hafter in Hw. injection Hw as ->.
      by rewrite <- Hpath, <- Hm, <- He.
    + right. exists settings, request, resp. rewrite Hafter in Hw. by simplify_eq.
  - intros [(? & ? & ? & ? & _ & _ & _ & ->)|(? & ? & ? & _ & _ & _ & ->)]; done.
Qed.

(** C5, as the code has it. When a full record sits under a path and no
    marshal that missed the cache for that path is still suspended, then
    after any schedule the same record is still there. As long as the
    cache object answers (nothing has been stored under
    [hasOwnProperty]), every later [prepare] for the path takes its
    last-modified value from the record as it is and sets one and the
    same etag header, fixed by the record, and every later [marshal]
    takes its last-modified value and its css from the record, whatever
    the filesystem and the transformation would give now. And with or
    without a suspended marshal, a full record is only ever replaced by
    a full record. *)
Theorem full_record_pinned :
  (∀ sys path mtime etag data size,
     cache (sys_state sys) !! path = Some (FullRecord mtime etag data size) →
     no_pending_for path sys →
     ∃ etag_sent, ∀ acts,
       let sys' := (run etag_header acts sys).2 in
       cache (sys_state sys') !! path = Some (FullRecord mtime etag data size) ∧
       (cache (sys_state sys') !! "hasOwnProperty" = None →
        (∀ w response,
           src_path (source response) = PathStr path →
           ∃ r', prepare etag_header w response (sys_state sys') =
                   (Ok r', sys_state sys') ∧
             header_of r' "last-modified" =
               (if truthy mtime then mtime else header_of response "last-modified") ∧
             header_of r' "etag" =
               (if truthy etag then etag_sent else header_of response "etag")) ∧
        (∀ w response settings,
           src_path (source response) = PathStr path →
           src_settings (source response) = Some settings →
           ∃ r', marshal w response (sys_state sys') =
                   (Ok (r', css data), sys_state sys') ∧
             header_of r' "last-modified" = mtime))) ∧
  (∀ sys path v acts,
     cache (sys_state sys) !! path = Some v → is_full v = true →
     ∃ mtime etag data size,
       cache (sys_state (run etag_header acts sys).2) !! path =
         Some (FullRecord mtime etag data size)).
Proof.
  split.
  - intros sys path mtime etag data size Hc Hp. exists (etag_header etag).
    intros acts sys'.
    destruct (run_pinned acts sys path _ Hc eq_refl Hp) as (Hc' & _).
    fold sys' in Hc'. split; [done|]. intros Hown.
    assert (InMemoryCache.get path (cache (sys_state sys')) =
              Ok (Some (FullRecord mtime etag data size))) as Hget
      by (apply get_Ok; by rewrite Hc').
    split.
    + intros w response Hpath.
      destruct (prepare_hit w response (sys_state sys') (FullRecord mtime etag data size))
        as (r' & Hprep & _ & _ & _ & Hm & He).
      { by rewrite Hpath. }
      { by rewrite Hpath. }
      eauto.
    + intros w response settings Hpath Hs. unfold marshal.
      unfold mbind at 1, M_bind at 1. erewrite marshal_begin_hit; [| |done].
      * eexists. split; [reflexivity|].
        unfold header_of, response_bytes, response_header, set_source. simpl.
        rewrite lookup_insert_ne; [|done]. by rewrite lookup_insert_eq.
      * by rewrite Hpath.
  - intros sys path v acts Hc Hv.
    destruct (run_full_stays_full acts sys path v Hc Hv) as ([m e d sz| |] & Hc' & Hv');
      try done. eauto.
Qed.


(** ** The directory handler *)

(** With a static list of directories and a selection that is not
    hidden, the handler is the loop over the list. *)
Lemma directory_handler_runs_loop File_load settings request paths :
  dir_path settings = DirArray paths →
  isFileHidden (default "" (req_param request)) = false →
  directory_handler File_load settings request =
    directory_loop
      (each File_load settings request (req_param request)
         (Path.endsWithSep (req_path request))) paths.
Proof.
  intros Hd Hh. unfold directory_handler. rewrite Hd, Hh.
  rewrite andb_false_r. reflexivity.
Qed.

Lemma directory_loop_skips each pre rest s s1 :
  skipped each pre s s1 → rest ≠ [] →
  directory_loop each (pre ++ rest) s = directory_loop each rest s1.
Proof.
  intros Hsk Hrest. induction Hsk as [s|d ds s e s1 s2 He Hb Hn Hsk IH]; [done|].
  simpl. run_monad. rewrite He, Hb, Hn. simpl.
  rewrite bool_decide_eq_false_2; [done|].
  destruct ds; [by destruct rest|done].
Qed.

(** The loop by itself, for any per-candidate function. The candidates
    are tried in the order of the list, each from the state the one
    before it left. When those before a candidate have all failed with
    not-found, a success of that candidate is the result of the loop,
    and an error of it that is not a not-found is its error; in both
    cases the state is the one that candidate left, so no later
    candidate is tried. When every candidate fails with not-found, the
    loop fails with a not-found error. *)
Lemma directory_loop_first_decisive (each : string → M Response) :
  (∀ pre d post s s1 r s2,
     skipped each pre s s1 → each d s1 = (Ok r, s2) →
     directory_loop each (pre ++ d :: post) s = (Ok r, s2)) ∧
  (∀ pre d post s s1 e s2,
     skipped each pre s s1 → each d s1 = (Throw e, s2) → isNotFound e = false →
     directory_loop each (pre ++ d :: post) s = (Throw e, s2)) ∧
  (∀ paths s s1,
     skipped each paths s s1 →
     ∃ e, directory_loop each paths s = (Throw e, s1) ∧ isNotFound e = true).
Proof.
  repeat split.
  - intros pre d post s s1 r s2 Hsk Hd.
    rewrite (directory_loop_skips each pre (d :: post) s s1); [|done..].
    simpl. run_monad. by rewrite Hd.
  - intros pre d post s s1 e s2 Hsk Hd Hn.
    rewrite (directory_loop_skips each pre (d :: post) s s1); [|done..].
    simpl. run_monad. rewrite Hd, Hn. simpl. by destruct (isBoom e).
  - intros paths s s1 Hsk.
    induction Hsk as [s|d ds s e s1 s2 He Hb Hn Hsk IH].
    + by exists Boom_notFound.
    + simpl. run_monad. rewrite He, Hb, Hn. simpl.
      destruct ds as [|d' ds'].
      * inversion Hsk; subst. eauto.
      * rewrite bool_decide_eq_false_2; [|done]. exact IH.
Qed.

(** Inside one candidate: when the first load fails with not-found and a
    default extension is configured, the candidate's outcome is that of
    one more load, of the path (less its last character when the request
    path ends in '/') followed by '.' and the extension. *)
Lemma each_retries_with_extension File_load settings request selection slash
    baseDir s e s1 ext :
  let fileOptions :=
    {| opt_confine := ConfineStr baseDir; opt_mode := None;
       opt_etagMethod := dir_etagMethod settings;
       opt_lookupCompressed := dir_lookupCompressed settings;
       opt_start := None; opt_end := None |} in
  let path := default "" (string_truthy selection) in
  File_load path request fileOptions s = (Throw e, s1) →
  isBoom e = true → isNotFound e = true →
  string_truthy (dir_defaultExtension settings) = Some ext →
  each File_load settings request selection slash baseDir s =
    File_load ((if slash then slice_0_m1 path else path) +:+ "." +:+ ext)
      request fileOptions s1.
Proof.
  intros fileOptions path Hl Hb Hn Hx. unfold each. run_monad.
  fold fileOptions path. rewrite Hl, Hb, Hn, Hx. reflexivity.
Qed.

(** An error of the first load that is not a boom error leaves the
    candidate at once. *)
Lemma each_rethrows_other_errors File_load settings request selection slash
    baseDir s e s1 :
  File_load (default "" (string_truthy selection)) request
    {| opt_confine := ConfineStr baseDir; opt_mode := None;
       opt_etagMethod := dir_etagMethod settings;
       opt_lookupCompressed := dir_lookupCompressed settings;
       opt_start := None; opt_end := None |} s = (Throw e, s1) →
  isBoom e = false →
  each File_load settings request selection slash baseDir s = (Throw e, s1).
Proof.
  intros Hl Hb. unfold each. run_monad. by rewrite Hl, Hb.
Qed.

(** With the [load] of file.js no candidate ever fails with not-found:
    the errors of [fileResponse] are not boom errors, and [prepare] fails
    with forbidden, with the [TypeError] of the cache object or with the
    [TypeError] of its handler. *)
Lemma load_never_not_found w path request options s e s' :
  load etag_header w path request options s = (Throw e, s') →
  isNotFound e = false.
Proof.
  unfold load. unfold mbind, M_bind. intros H.
  destruct (fileResponse _ _ _ _ _) as [[resp|e1] s1] eqn:E1.
  - apply prepare_throw_kinds in H as [(_ & -> & _)|(_ & [->|(-> & _)])]; done.
  - simplify_eq. unfold fileResponse, resolve_confine in E1. run_monad.
    repeat (case_match; simplify_eq/=); done.
Qed.

(** So a candidate is its first load, and the handler is its first
    candidate: a second directory or the default extension is never
    reached. *)
Lemma each_is_first_load w settings request selection slash baseDir s :
  each (load etag_header w) settings request selection slash baseDir s =
    load etag_header w (default "" (string_truthy selection)) request
      {| opt_confine := ConfineStr baseDir; opt_mode := None;
         opt_etagMethod := dir_etagMethod settings;
         opt_lookupCompressed := dir_lookupCompressed settings;
         opt_start := None; opt_end := None |} s.
Proof.
  unfold each. run_monad.
  destruct (load _ _ _ _ _ _) as [[resp|e] s1] eqn:E; [done|].
  apply load_never_not_found in E as ->. by destruct (isBoom e).
Qed.

Lemma directory_loop_stops_at_first w settings request selection slash baseDir rest s :
  directory_loop (each (load etag_header w) settings request selection slash)
    (baseDir :: rest) s =
  each (load etag_header w) settings request selection slash baseDir s.
Proof.
  simpl. run_monad.
  destruct (each _ _ _ _ _ _ _) as [[resp|e] s1] eqn:E; [done|].
  rewrite each_is_first_load in E. apply load_never_not_found in E as ->.
  by destruct (isBoom e).
Qed.

End Properties.

(** * The properties at sample inputs *)

Import Sample.

(** Splits conjunctions only, and leaves the equations to evaluation. *)
Ltac split_conj := repeat match goal with |- _ ∧ _ => split end.
Ltac evaluate :=
  split_conj; match goal with |- _ = _ => vm_compute; reflexivity end.

(** C3, at a failing input. /srv/www/site.css is opened and stat'ed, the
    etag computation fails with EIO; [prepare] ends with the file's
    handle still open, and what it throws is the [TypeError] of the call
    to [internals.close] instead of the EIO error. For a missing file,
    where [openStat] throws not-found with no handle open, the same
    [TypeError] takes the place of the not-found error. *)
Theorem prepare_failure_leaks_handle :
  openStat world_etag_fails "/srv/www/site.css" = Ok stat_v1 ∧
  etag_apply world_etag_fails (source response_site) stat_v1 = Throw (SystemError "EIO") ∧
  prepare Sample.etag_header world_etag_fails response_site initial_state =
    (Throw (TypeError "internals.close is not a function"),
     {| cache := ∅; next_rid := 0;
        events := [FsOpenStat "/srv/www/site.css";
                   EtagApply (PathStr "/srv/www/site.css")];
        open_files := ["/srv/www/site.css"] |}) ∧
  openStat world_v1 "/srv/www/missing.css" = Throw Boom_notFound ∧
  prepare Sample.etag_header world_v1 response_missing initial_state =
    (Throw (TypeError "internals.close is not a function"),
     {| cache := ∅; next_rid := 0;
        events := [FsOpenStat "/srv/www/missing.css"];
        open_files := [] |}).
Proof. evaluate. Qed.

(** C8, at a failing input. /srv/www/styles is missing and
    /srv/www/styles.css is there. The first load of the candidate fails
    in [prepare] with the [TypeError] of the call to [internals.close],
    which is not a boom error: the candidate and the handler rethrow it,
    and styles.css is never tried. With a load that lets the not-found
    error through, the same handler answers with styles.css. *)
Theorem directory_default_extension_not_retried :
  openStat world_v1 "/srv/www/styles" = Throw Boom_notFound ∧
  openStat world_v1 "/srv/www/styles.css" = Ok stat_v1 ∧
  directory_handler (load Sample.etag_header world_v1)
    (directory_settings ["www"] (Some "css")) request_styles initial_state =
    (Throw (TypeError "internals.close is not a function"),
     {| cache := ∅; next_rid := 1;
        events := [FsOpenStat "/srv/www/styles"];
        open_files := [] |}) ∧
  (∃ resp s',
     directory_handler (plain_load world_v1)
       (directory_settings ["www"] (Some "css")) request_styles initial_state =
       (Ok resp, s') ∧
     src_path (source resp) = PathStr "/srv/www/styles.css").
Proof.
  split_conj; try evaluate.
  eexists _, _. evaluate.
Qed.

(** C2, at a failing input. Two requests for site.css through [h.css].
    The first is prepared, the etag computation giving the tag v1, and
    marshalled: its etag header is v1 between double quotes, and that
    header value is what the record holds. The second is prepared from
    the cache and marshalled from it, with no stat, no read and no
    transformation, and its last-modified header is the cached value;
    but its etag header is the cached value put between double quotes
    once more, not the cached value. *)
Theorem cached_etag_not_applied_as_cached :
  ∃ r0 r1,
    outcomes first_request initial_system !! 1%nat = Some (OutResponse (Ok r0)) ∧
    header_of r0 "etag" = JStr (quote +:+ "v1" +:+ quote) ∧
    cache (sys_state (after first_request initial_system)) !! "/srv/www/site.css" =
      Some (FullRecord (JStr "Mon, 01 Jan 2024 00:00:00 GMT")
              (JStr (quote +:+ "v1" +:+ quote)) {| css := "a{color:red}" |} 12) ∧
    outcomes second_request (after first_request initial_system) !! 1%nat =
      Some (OutResponse (Ok r1)) ∧
    outcomes second_request (after first_request initial_system) !! 2%nat =
      Some (OutBody (Ok "a{color:red}")) ∧
    events (sys_state (after second_request (after first_request initial_system))) =
      events (sys_state (after first_request initial_system)) ∧
    header_of r1 "last-modified" = JStr "Mon, 01 Jan 2024 00:00:00 GMT" ∧
    header_of r1 "etag" = JStr (quote +:+ (quote +:+ "v1" +:+ quote) +:+ quote) ∧
    header_of r1 "etag" ≠ JStr (quote +:+ "v1" +:+ quote).
Proof.
  eexists _, _. split_conj; try (vm_compute; reflexivity).
  vm_compute. discriminate.
Qed.


(** C4 as stated, refuted. On the empty cache the file handler
    configured with the path site.css stores the response it builds, not
    a full record, and stores it under site.css, while the resolved path
    of that response is /srv/www/site.css. *)
Lemma fileHandler_writes_descriptor :
  writes Sample.etag_header (ActFileHandler handler_relative request)
    initial_system "site.css" (Descriptor 0) ∧
  is_full (Descriptor 0) = false ∧
  (∃ resp s',
     fileHandler handler_relative request initial_state = (Ok (Built resp), s') ∧
     rid resp = 0%nat ∧
     src_path (source resp) = PathStr "/srv/www/site.css") ∧
  ¬ (∀ a sys k v,
       reachable Sample.etag_header sys →
       writes Sample.etag_header a sys k v → is_full v = true).
Proof.
  assert (writes Sample.etag_header (ActFileHandler handler_relative request)
            initial_system "site.css" (Descriptor 0)) as Hw.
  { split; [vm_compute; reflexivity|]. simpl. by rewrite lookup_empty. }
  split; [exact Hw|]. split; [reflexivity|]. split.
  - eexists _, _. evaluate.
  - intros H. specialize (H _ initial_system _ _ (ex_intro _ [] eq_refl) Hw).
    discriminate.
Qed.

(** C5 as stated, refuted. When the transformation of request 1
    finishes, the full record of /srv/www/site.css carries the second
    modification date, and request 2 is answered with it. The
    transformation of request 0, which missed the cache before that
    record was written, then finishes and replaces the record by one with
    the first date, and request 3 is answered with that one. And with
    the record in place and nothing suspended, once a file route whose
    path is hasOwnProperty has been served, the [prepare] of a later
    request for site.css throws the [TypeError] of the cache object:
    the record is still there, and it is not used. *)
Lemma suspended_marshal_replaces_record :
  cache (sys_state (after race_before initial_system)) !! "/srv/www/site.css" =
    Some (FullRecord (JStr "Tue, 02 Jan 2024 00:00:00 GMT")
            (JStr (quote +:+ "v2" +:+ quote)) {| css := "a{color:blue}" |} 13) ∧
  cache (sys_state (after race_after (after race_before initial_system)))
    !! "/srv/www/site.css" =
    Some (FullRecord (JStr "Mon, 01 Jan 2024 00:00:00 GMT")
            (JStr (quote +:+ "v1" +:+ quote)) {| css := "a{color:red}" |} 12) ∧
  (∃ r2 r3,
     outcomes race_after (after race_before initial_system) !! 1%nat =
       Some (OutResponse (Ok r2)) ∧
     outcomes race_after (after race_before initial_system) !! 4%nat =
       Some (OutResponse (Ok r3)) ∧
     header_of r2 "last-modified" = JStr "Tue, 02 Jan 2024 00:00:00 GMT" ∧
     header_of r3 "last-modified" = JStr "Mon, 01 Jan 2024 00:00:00 GMT") ∧
  cache (sys_state (after request_after_hasOwnProperty
                      (after first_request initial_system))) !! "/srv/www/site.css" =
    Some (FullRecord (JStr "Mon, 01 Jan 2024 00:00:00 GMT")
            (JStr (quote +:+ "v1" +:+ quote)) {| css := "a{color:red}" |} 12) ∧
  outcomes request_after_hasOwnProperty (after first_request initial_system) !! 2%nat =
    Some (OutResponse
            (Throw (TypeError "this.cache.hasOwnProperty is not a function"))) ∧
  ¬ (∀ sys path v acts,
       reachable Sample.etag_header sys →
       cache (sys_state sys) !! path = Some v → is_full v = true →
       cache (sys_state (run Sample.etag_header acts sys).2) !! path = Some v).
Proof.
  assert (cache (sys_state (after race_before initial_system)) !! "/srv/www/site.css" =
    Some (FullRecord (JStr "Tue, 02 Jan 2024 00:00:00 GMT")
            (JStr (quote +:+ "v2" +:+ quote)) {| css := "a{color:blue}" |} 13)) as H1
    by (vm_compute; reflexivity).
  assert (cache (sys_state (after race_after (after race_before initial_system)))
            !! "/srv/www/site.css" =
    Some (FullRecord (JStr "Mon, 01 Jan 2024 00:00:00 GMT")
            (JStr (quote +:+ "v1" +:+ quote)) {| css := "a{color:red}" |} 12)) as H2
    by (vm_compute; reflexivity).
  split; [exact H1|]. split; [exact H2|]. split; [|split; [|split]].
  - eexists _, _. evaluate.
  - vm_compute; reflexivity.
  - vm_compute; reflexivity.
  - intros H.
    specialize (H (after race_before initial_system) _ _ race_after
                  (ex_intro _ race_before eq_refl) H1 eq_refl).
    unfold after in *. rewrite H2 in H. discriminate.
Qed.


(** ** Instances of the theorems *)

Lemma prepare_denied_is_forbidden_witness :
  ∃ resp s1,
    fileResponse "../../etc/passwd" confined_www request true initial_state = (Ok resp, s1) ∧
    src_path (source resp) = PathNull ∧
    events s1 = [] ∧
    prepare Sample.etag_header world_v1 resp s1 =
      (Throw (Boom_forbidden (Some "EACCES")), s1).
Proof.
  eexists _, _. split; [vm_compute; reflexivity|].
  split; [reflexivity|]. split; [reflexivity|].
  match goal with
  | |- prepare _ _ ?resp ?s1 = _ =>
      exact (proj1 (prepare_denied_is_forbidden Sample.etag_header world_v1 resp s1 eq_refl))
  end.
Defined.

Lemma marshal_byte_length_witness :
  (∃ r', marshal world_v2 response_site state_cached =
           (Ok (r', "a{color:red}"), state_cached) ∧
         header_of r' "content-length" = JNum 12) ∧
  (∃ r' s', marshal world_v1 response_site initial_state =
              (Ok (r', "a{color:red}"), s') ∧
            header_of r' "content-length" = JNum 12) ∧
  js_add (js_sub 9 (default 0 (Some 2))) 1 = 9 - 2 + 1.
Proof.
  pose proof (marshal_byte_length world_v2 response_site state_cached confined_www eq_refl)
    as Hcached.
  pose proof (marshal_byte_length world_v1 response_site initial_state confined_www eq_refl)
    as Hempty.
  pose proof (marshal_byte_length world_v1
                {| rid := 0; headers := ∅;
                   source := {| src_path := PathStr "/srv/www/site.css";
                                src_settings := Some (ranged (Some 2) (Some 9));
                                src_file := None |};
                   has_prepare := true |}
                initial_state (ranged (Some 2) (Some 9)) eq_refl) as Hranged.
  cbv zeta in Hcached, Hempty, Hranged.
  destruct Hcached as (Hhit & _ & _). destruct Hempty as (_ & Hmiss & _).
  destruct Hranged as (_ & _ & _ & Hexact). split; [|split].
  - assert (InMemoryCache.get (key_of (src_path (source response_site)))
              (cache state_cached) = Ok (Some record_v1))
      as Hc by (vm_compute; reflexivity).
    destruct (Hhit _ _ _ _ Hc) as (r' & Hm & Hh). exists r'. split; [exact Hm | exact Hh].
  - destruct (Hmiss None "/srv/www/site.css" "a{color:red}" {| css := "a{color:red}" |})
      as (r' & s' & Hm & Hh & _).
    + vm_compute; reflexivity.
    + intros mtime etag d size H. discriminate.
    + reflexivity.
    + reflexivity.
    + reflexivity.
    + exists r', s'. split; [exact Hm | exact Hh].
  - apply (Hexact 0). simpl. lia.
Defined.

Lemma cache_writes_characterised_witness :
  writes Sample.etag_header (ActMarshalResume world_v1 0) system_suspended
    "/srv/www/site.css"
    (FullRecord (JStr "Mon, 01 Jan 2024 00:00:00 GMT")
       (JStr (quote +:+ "v1" +:+ quote)) {| css := "a{color:red}" |} 12) ∧
  ∀ mtime etag,
    FullRecord (JStr "Mon, 01 Jan 2024 00:00:00 GMT")
      (JStr (quote +:+ "v1" +:+ quote)) {| css := "a{color:red}" |} 12
    ≠ MetaRecord mtime etag.
Proof.
  assert (writes Sample.etag_header (ActMarshalResume world_v1 0) system_suspended
            "/srv/www/site.css"
            (FullRecord (JStr "Mon, 01 Jan 2024 00:00:00 GMT")
               (JStr (quote +:+ "v1" +:+ quote)) {| css := "a{color:red}" |} 12)) as Hw.
  { split; [vm_compute; reflexivity|]. intros H. vm_compute in H. discriminate. }
  split; [exact Hw|].
  exact (proj2 (cache_writes_characterised Sample.etag_header _ system_suspended _ _
                  (ex_intro _ _ eq_refl) Hw)).
Defined.

Lemma full_record_pinned_witness :
  cache (sys_state (after later_request system_cached)) !! "/srv/www/site.css" =
    Some record_v1 ∧
  (∃ r', prepare Sample.etag_header world_v2 response_site
           (sys_state (after later_request system_cached)) =
           (Ok r', sys_state (after later_request system_cached)) ∧
         header_of r' "last-modified" = JStr "Mon, 01 Jan 2024 00:00:00 GMT") ∧
  (∃ mtime etag data size,
     cache (sys_state (after race_before system_cached)) !! "/srv/www/site.css" =
       Some (FullRecord mtime etag data size)).
Proof.
  destruct (full_record_pinned Sample.etag_header) as [Hpinned Hfull].
  assert (cache (sys_state system_cached) !! "/srv/www/site.css" = Some record_v1)
    as Hc by (vm_compute; reflexivity).
  assert (no_pending_for "/srv/www/site.css" system_cached) as Hnp.
  { intros id p H. simpl in H. rewrite lookup_empty in H. discriminate. }
  destruct (Hpinned system_cached "/srv/www/site.css" _ _ _ _ Hc Hnp) as (etag_sent & Hrun).
  pose proof (Hrun later_request) as Hlater. cbv zeta in Hlater.
  destruct Hlater as (Hrec & Huse).
  split; [exact Hrec|]. split.
  - destruct Huse as (Hprep & _); [vm_compute; reflexivity|].
    destruct (Hprep world_v2 response_site eq_refl) as (r' & Hp & Hm & _).
    exists r'. split; [exact Hp | exact Hm].
  - exact (Hfull system_cached "/srv/www/site.css" record_v1 race_before Hc eq_refl).
Defined.


(** * Further properties of the code *)

Section Coverage.

Variable etag_header : jsval → jsval.

(** ** index.js: the cache object *)

(** X1. On a cache object that holds nothing under [hasOwnProperty] (and
    whose prototype was not replaced), and for a key other than
    [__proto__] and [hasOwnProperty], what [set]
    stores is what [get] returns, the other keys answer as before, and a
    second [set] replaces the first: there the object behaves as a
    finite map. The handlers reach the cache of the shared state through
    these two methods. A key that was never set answers [null]. *)
Theorem inMemoryCache_round_trip own key data :
  InMemoryCache.ordinary key = true →
  own !! "hasOwnProperty" = None →
  InMemoryCache.get key (InMemoryCache.set key data own) = Ok (Some data) ∧
  (∀ k, k ≠ key →
     InMemoryCache.get k (InMemoryCache.set key data own) = InMemoryCache.get k own) ∧
  (∀ data', InMemoryCache.set key data' (InMemoryCache.set key data own) =
            InMemoryCache.set key data' own) ∧
  (∀ s, cache s = own →
     Ok (cache_get key s).1 = Ok (InMemoryCache.get key own) ∧
     cache (cache_set key data s).2 = InMemoryCache.set key data own) ∧
  InMemoryCache.get key InMemoryCache.constructor = Ok None.
Proof.
  intros Hk Hown. unfold InMemoryCache.ordinary in Hk.
  apply andb_true_iff in Hk as [Hp Hh].
  apply negb_true_iff in Hp. apply negb_true_iff, String.eqb_neq in Hh.
  unfold InMemoryCache.get, InMemoryCache.set, InMemoryCache.constructor.
  rewrite !Hp. split_and!.
  - rewrite lookup_insert_ne, Hown; [|done]. by rewrite lookup_insert_eq.
  - intros k Hne. rewrite lookup_insert_ne, Hown; [|done].
    by rewrite lookup_insert_ne.
  - intros data'. apply insert_insert_eq.
  - intros s <-. unfold cache_get, cache_set, InMemoryCache.get, InMemoryCache.set.
    simpl. by rewrite Hp.
  - by rewrite !lookup_empty.
Qed.

(** X2. The two names the object does not treat as keys. A value stored
    under [hasOwnProperty] makes every later [get] throw a [TypeError],
    for every key and after any further [set]. A value stored under
    [__proto__] in a new cache is not found again, nor does it disturb
    the other keys. *)
Theorem inMemoryCache_reserved_names :
  (∀ own data k,
     InMemoryCache.get k (InMemoryCache.set "hasOwnProperty" data own) =
       Throw (TypeError "this.cache.hasOwnProperty is not a function")) ∧
  (∀ own key data k e,
     InMemoryCache.get k own = Throw e →
     InMemoryCache.get k (InMemoryCache.set key data own) = Throw e) ∧
  (∀ own data k,
     InMemoryCache.get k (InMemoryCache.set "__proto__" data own) =
       InMemoryCache.get k own) ∧
  (∀ data,
     InMemoryCache.get "__proto__"
       (InMemoryCache.set "__proto__" data InMemoryCache.constructor) = Ok None).
Proof.
  unfold InMemoryCache.get, InMemoryCache.set, InMemoryCache.constructor.
  split_and!.
  - intros own data k. simpl. by rewrite lookup_insert_eq.
  - intros own key data k e.
    destruct (own !! "hasOwnProperty") as [v|] eqn:Hown; [|done]. intros [= <-].
    destruct (String.eqb key "__proto__"); [by rewrite Hown|].
    destruct (decide (key = "hasOwnProperty")) as [->|Hne].
    + by rewrite lookup_insert_eq.
    + by rewrite lookup_insert_ne, Hown.
  - intros own data k. reflexivity.
  - intros data. simpl. by rewrite !lookup_empty.
Qed.

(** ** file.js: [fileResponse] and the two ways into it *)

Lemma fileResponse_invalid_mode path options request preloaded s :
  valid_mode (opt_mode options) = false →
  ∃ msg, fileResponse path options request preloaded s = (Throw (AssertionError msg), s).
Proof. unfold fileResponse. run_monad. intros ->. eauto. Qed.

Lemma fileResponse_succeeds path options request preloaded s :
  valid_mode (opt_mode options) = true → opt_confine options ≠ ConfineTrue →
  ∃ resp,
    fileResponse path options request preloaded s =
      (Ok resp, {| cache := cache s; next_rid := S (next_rid s);
                   events := events s; open_files := open_files s |}) ∧
    rid resp = next_rid s ∧
    src_settings (source resp) = Some options ∧
    (confine_truthy (opt_confine options) = false →
     src_path (source resp) =
       PathStr (if Path.isAbsolute path then Path.normalize path
                else Path.join [relativeTo request; path])).
Proof.
  unfold fileResponse, resolve_confine. run_monad. intros -> Hc.
  destruct (opt_confine options) as [| |dir] eqn:E; [|done|]; simpl.
  - eexists. split; [reflexivity|]. by split_and!.
  - destruct (String.eqb dir ""); simpl.
    + eexists. split; [reflexivity|]. by split_and!.
    + destruct (negb _); simpl; (eexists; split; [reflexivity|]); by split_and!.
Qed.

Lemma schema_mode_valid mode : schema_mode mode = true → valid_mode mode = true.
Proof.
  destruct mode as [m|]; [|done]. simpl. intros H.
  apply orb_true_iff in H as [->| ->]; by rewrite ?orb_true_r.
Qed.

(** A miss of the file handler whose settings [fileResponse] accepts. *)
Lemma fileHandler_builds settings request s :
  valid_mode (opt_mode (set_options settings)) = true →
  opt_confine (set_options settings) ≠ ConfineTrue →
  InMemoryCache.get (configured_path settings request) (cache s) = Ok None →
  ∃ resp s',
    fileHandler settings request s = (Ok (Built resp), s') ∧
    rid resp = next_rid s ∧
    cache s' = InMemoryCache.set (configured_path settings request)
                 (Descriptor (rid resp)) (cache s) ∧
    ∃ s1, fileResponse (configured_path settings request) (set_options settings)
            request false s = (Ok resp, s1).
Proof.
  intros Hm Hc Hmiss. unfold fileHandler. run_monad. rewrite Hmiss.
  destruct (fileResponse_succeeds (configured_path settings request)
              (set_options settings) request false s Hm Hc)
    as (resp & Hresp & Hrid & _).
  rewrite Hresp. eexists _, _. split; [reflexivity|]. by eauto.
Qed.

(** X3. [fileResponse] fails in two cases only, and never with a boom
    error: an invalid [mode] is an assertion error, and a truthy
    [confine] that is not a string is a [TypeError]. Otherwise it builds
    exactly one response, with a fresh identity, no header and the given
    options, and touches neither the cache nor the filesystem. With a
    falsy [confine] (absent, [false] or the empty string) the path is
    never denied: an absolute path is only normalized and a relative one
    is joined to [relativeTo], wherever that leads. *)
Theorem fileResponse_outcomes path options request preloaded s :
  (valid_mode (opt_mode options) = false →
   ∃ msg, fileResponse path options request preloaded s = (Throw (AssertionError msg), s)) ∧
  (valid_mode (opt_mode options) = true → opt_confine options = ConfineTrue →
   ∃ msg, fileResponse path options request preloaded s = (Throw (TypeError msg), s)) ∧
  (valid_mode (opt_mode options) = true → opt_confine options ≠ ConfineTrue →
   ∃ resp,
     fileResponse path options request preloaded s =
       (Ok resp, {| cache := cache s; next_rid := S (next_rid s);
                    events := events s; open_files := open_files s |}) ∧
     rid resp = next_rid s ∧ headers resp = ∅ ∧
     src_settings (source resp) = Some options ∧
     has_prepare resp = negb preloaded ∧
     (confine_truthy (opt_confine options) = false →
      src_path (source resp) =
        PathStr (if Path.isAbsolute path then Path.normalize path
                 else Path.join [relativeTo request; path]))).
Proof.
  unfold fileResponse, resolve_confine. run_monad. split_and!.
  - intros ->. eauto.
  - intros -> ->. simpl. eauto.
  - intros -> Hc. destruct (opt_confine options) as [| |dir] eqn:E; [|done|]; simpl.
    + eexists. split; [reflexivity|]. by split_and!.
    + destruct (String.eqb dir ""); simpl.
      * eexists. split; [reflexivity|]. by split_and!.
      * destruct (negb _); simpl; (eexists; split; [reflexivity|]); by split_and!.
Qed.

(** X4. [h.css(path, options)] refuses, with an assertion error and
    before anything is built, an [end] that comes without a [start] or
    lies before it, and (through [fileResponse]) an invalid [mode];
    otherwise it succeeds, whatever [confine] is, and builds one
    response with the options as given except for [confine]: an absent
    [confine] and [confine: true] have become the directory ['.']. With
    [confine: false] or the empty string the path is not confined; with
    a directory (the default ['.'] included) the path of the response is
    denied or starts with that directory, resolved against
    [relativeTo]. *)
Theorem fileMethod_outcomes path confine responseOptions request s :
  let range_ok :=
    match opt_end responseOptions with
    | None => true
    | Some end_ =>
        match opt_start responseOptions with
        | Some start => start <=? end_
        | None => false
        end
    end in
  let given :=
    match confine with
    | None | Some ConfineTrue => ConfineStr "."
    | Some c => c
    end in
  (range_ok && valid_mode (opt_mode responseOptions) = false →
   ∃ msg, fileMethod path confine responseOptions request s =
            (Throw (AssertionError msg), s)) ∧
  (range_ok && valid_mode (opt_mode responseOptions) = true →
   ∃ resp,
     fileMethod path confine responseOptions request s =
       (Ok resp, {| cache := cache s; next_rid := S (next_rid s);
                    events := events s; open_files := open_files s |}) ∧
     rid resp = next_rid s ∧
     src_settings (source resp) = Some (with_confine given responseOptions) ∧
     (confine_truthy given = false →
      src_path (source resp) =
        PathStr (if Path.isAbsolute path then Path.normalize path
                 else Path.join [relativeTo request; path])) ∧
     (∀ dir, given = ConfineStr dir → dir ≠ "" →
        src_path (source resp) = PathNull ∨
        ∃ p, src_path (source resp) = PathStr p ∧
             String.prefix (Path.resolve (cwd request) [relativeTo request; dir]) p
               = true)).
Proof.
  intros range_ok given. unfold fileMethod.
  set (o := match confine with
            | None | Some ConfineTrue => with_confine (ConfineStr ".") responseOptions
            | Some c => with_confine c responseOptions
            end).
  assert (o = with_confine given responseOptions) as Ho
    by (subst o given; by destruct confine as [[]|]).
  assert (opt_end o = opt_end responseOptions ∧
          opt_start o = opt_start responseOptions ∧
          opt_mode o = opt_mode responseOptions ∧
          opt_confine o = given) as (He & Hst & Hmo & Hco)
    by (by rewrite Ho).
  assert (given ≠ ConfineTrue) as Hnt by (subst given; by destruct confine as [[]|]).
  rewrite He, Hst. fold range_ok.
  pose proof (fileResponse_invalid_mode path o request false s) as Hbad.
  pose proof (fileResponse_succeeds path o request false s) as Hok.
  rewrite Hmo in Hbad, Hok. rewrite Hco in Hok. run_monad. split.
  - intros H. destruct range_ok; simpl in *; [|by eauto].
    destruct (Hbad H) as (msg & ->). eauto.
  - intros H. apply andb_true_iff in H as [-> Hm]. simpl.
    destruct (Hok Hm Hnt) as (resp & Hresp & Hrid & Hset & Hfree).
    rewrite Hresp. exists resp. split; [reflexivity|]. split; [done|].
    split; [by rewrite Hset, Ho|]. split; [done|].
    intros dir Hdir Hne. pose proof Hresp as Hpre.
    apply fileResponse_confined_prefix in Hpre as (dir' & Hdir' & Hpre).
    2:{ rewrite Hco, Hdir. simpl. by apply negb_true_iff, String.eqb_neq. }
    rewrite Hco, Hdir in Hdir'. by injection Hdir' as <-.
Qed.

(** X5. What setting up a [css] file route leaves behind. It fails in
    two cases only: the validation error of the schema, and the
    assertion error for a string path that ends in '/'. The settings kept
    have the path as given, a [mode] that [fileResponse] accepts, a
    [start], and for [confine] the directory or [false] that was given,
    and ['.'] for a bare path, an absent [confine] and [confine: true].
    With such settings, a call of the handler that the cache answers
    with nothing under the configured path builds a response and stores
    it there; under a directory (the default ['.'] included) the path of
    that response is denied or starts with the directory, resolved
    against [relativeTo]. *)
Theorem fileHandler_settings_outcomes options :
  let path := match options with OptionsPath p | OptionsObject p _ _ => p end in
  match fileHandler_settings options with
  | Throw e =>
      (schema_accepts options = false ∧ ∃ msg, e = ValidationError msg) ∨
      (schema_accepts options = true ∧
       ∃ p msg, path = PathString p ∧ Path.endsWithSep p = true ∧
                e = AssertionError msg)
  | Ok settings =>
      schema_accepts options = true ∧
      set_path settings = path ∧
      (∀ p, path = PathString p → Path.endsWithSep p = false) ∧
      opt_confine (set_options settings) =
        match options with
        | OptionsObject _ (Some (ConfineStr dir)) _ => ConfineStr dir
        | OptionsObject _ (Some ConfineFalse) _ => ConfineFalse
        | _ => ConfineStr "."
        end ∧
      valid_mode (opt_mode (set_options settings)) = true ∧
      opt_start (set_options settings) =
        match options with
        | OptionsPath _ => None
        | OptionsObject _ _ o => Some (default 0 (opt_start o))
        end ∧
      (∀ request s,
         InMemoryCache.get (configured_path settings request) (cache s) = Ok None →
         ∃ resp s',
           fileHandler settings request s = (Ok (Built resp), s') ∧
           rid resp = next_rid s ∧
           cache s' = InMemoryCache.set (configured_path settings request)
                        (Descriptor (rid resp)) (cache s) ∧
           (∀ dir, opt_confine (set_options settings) = ConfineStr dir →
              src_path (source resp) = PathNull ∨
              ∃ p, src_path (source resp) = PathStr p ∧
                   String.prefix
                     (Path.resolve (cwd request) [relativeTo request; dir]) p = true))
  end.
Proof.
  intros path. subst path.
  assert (∀ settings,
    valid_mode (opt_mode (set_options settings)) = true →
    (∀ dir, opt_confine (set_options settings) = ConfineStr dir → dir ≠ "") →
    opt_confine (set_options settings) ≠ ConfineTrue →
    ∀ request s,
      InMemoryCache.get (configured_path settings request) (cache s) = Ok None →
      ∃ resp s',
        fileHandler settings request s = (Ok (Built resp), s') ∧
        rid resp = next_rid s ∧
        cache s' = InMemoryCache.set (configured_path settings request)
                     (Descriptor (rid resp)) (cache s) ∧
        (∀ dir, opt_confine (set_options settings) = ConfineStr dir →
           src_path (source resp) = PathNull ∨
           ∃ p, src_path (source resp) = PathStr p ∧
                String.prefix
                  (Path.resolve (cwd request) [relativeTo request; dir]) p = true))
    as Hbuild.
  { intros settings Hm Hdir Hc request s Hmiss.
    destruct (fileHandler_builds settings request s Hm Hc Hmiss)
      as (resp & s' & Hb & Hrid & Hcache & s1 & Hresp).
    exists resp, s'. split_and!; try done. intros dir Hd.
    apply fileResponse_confined_prefix in Hresp as (dir' & Hd' & Hpre).
    2:{ rewrite Hd. simpl. apply negb_true_iff, String.eqb_neq. by eapply Hdir. }
    rewrite Hd in Hd'. by injection Hd' as <-. }
  unfold fileHandler_settings, Joi_attempt.
  destruct (schema_accepts options) eqn:Hs; [|left; by eauto].
  destruct options as [p|p confine o]; simpl in Hs |- *.
  - destruct p as [q|f]; simpl.
    + destruct (Path.endsWithSep q) eqn:Hq; [right; by eauto 10|].
      split_and!; try done; [by intros ? [= <-]|].
      apply Hbuild; simpl; try done. by intros ? [= <-].
    + split_and!; try done.
      apply Hbuild; simpl; try done. by intros ? [= <-].
  - repeat (apply andb_true_iff in Hs as [Hs ?]).
    assert (valid_mode (opt_mode o) = true) as Hvm by (by apply schema_mode_valid).
    assert (∀ dir, confine = Some (ConfineStr dir) → dir ≠ "") as Hdir.
    { intros dir ->. simpl in *. unfold schema_string in *.
      by apply String.eqb_neq, negb_true_iff. }
    destruct confine as [[| |dir]|]; simpl;
      (destruct p as [q|f]; simpl;
       [destruct (Path.endsWithSep q) eqn:Hq; [right; by eauto 10|]|]);
      (split_and!; try done;
       try (by intros ? [= <-]);
       (apply Hbuild; simpl; [done| |done];
        intros dir0 Heq; simplify_eq; try done; by apply Hdir)).
Qed.

(** ** file.js: [prepare] and [marshal] on a miss *)

Lemma prepare_miss_run w response s p stat tag :
  src_path (source response) = PathStr p →
  InMemoryCache.get p (cache s) = Ok None →
  openStat w p = Ok stat →
  (∀ src, etag_apply w src stat = Ok tag) →
  let opened :=
    set_source {| src_path := src_path (source response);
                  src_settings := src_settings (source response);
                  src_file := Some (PathStr p) |} response in
  let typed :=
    if negb (truthy (header_of opened "content-type"))
    then response_type "text/css" opened else opened in
  let dated := response_header "last-modified" (JStr (mtime_utc stat)) typed in
  prepare etag_header w response s =
    (Ok (match tag with
         | Some t => response_etag etag_header t dated
         | None => dated
         end),
     {| cache := cache s; next_rid := next_rid s;
        events := events s ++ [FsOpenStat p; EtagApply (PathStr p)];
        open_files := p :: open_files s |}).
Proof.
  intros Hp Hc Ho He.
  unfold prepare, file_openStat, Etag_apply. run_monad.
  rewrite Hp. simpl. rewrite Hc, Ho. simpl. rewrite He. simpl.
  rewrite <- app_assoc. simpl.
  destruct (negb _); simpl; by destruct tag.
Qed.

Lemma marshal_miss_run w response s p settings text data v :
  src_path (source response) = PathStr p →
  src_settings (source response) = Some settings →
  InMemoryCache.get p (cache s) = Ok v →
  (∀ mtime etag d size, v ≠ Some (FullRecord mtime etag d size)) →
  readFile w p = Ok text →
  postcss_process w text = Ok data →
  marshal w response s =
    (Ok (set_source empty_source
           (response_bytes
              (match opt_end settings with
               | Some end_ => js_add (js_sub end_ (start_or_0 settings)) 1
               | None => js_sub (Z.of_nat (String.length (css data)))
                           (start_or_0 settings)
               end) response),
         css data),
     {| cache := InMemoryCache.set p
                   (FullRecord (header_of response "last-modified")
                      (header_of response "etag") data
                      (Z.of_nat (String.length (css data)))) (cache s);
        next_rid := next_rid s;
        events := events s ++ [FsReadFile p; Transform text];
        open_files := open_files s |}).
Proof.
  intros Hp Hs Hg Hc Hr Ht. unfold marshal.
  unfold mbind at 1, M_bind at 1.
  rewrite (marshal_begin_miss _ _ v); [|by rewrite Hp|done].
  unfold marshal_resume, processCSS, source_settings, css_length. run_monad.
  simpl. rewrite Hp, Hs. simpl. rewrite Hr. simpl. rewrite Ht. simpl.
  rewrite <- app_assoc. by destruct (opt_end settings).
Qed.

(** X6. On a miss (the cache answers with nothing under the path) where
    the file can be opened and the etag computed, [prepare] makes two
    calls outside the plugin, in this order: the [openStat] of the path,
    whose handle it leaves open, and inert's [Etag.apply]. It sets
    last-modified from the stat, applies the tag if there is one, gives
    the content type text/css only to a response that has none, and
    leaves the cache and the source's path and settings as they were. *)
Theorem prepare_miss_success w response s p stat tag :
  src_path (source response) = PathStr p →
  InMemoryCache.get p (cache s) = Ok None →
  openStat w p = Ok stat →
  (∀ src, etag_apply w src stat = Ok tag) →
  ∃ r',
    prepare etag_header w response s =
      (Ok r', {| cache := cache s; next_rid := next_rid s;
                 events := events s ++ [FsOpenStat p; EtagApply (PathStr p)];
                 open_files := p :: open_files s |}) ∧
    header_of r' "content-type" =
      (if truthy (header_of response "content-type")
       then header_of response "content-type" else JStr "text/css") ∧
    header_of r' "last-modified" = JStr (mtime_utc stat) ∧
    header_of r' "etag" =
      match tag with
      | Some t => etag_header t
      | None => header_of response "etag"
      end ∧
    src_path (source r') = PathStr p ∧
    src_settings (source r') = src_settings (source response).
Proof.
  intros Hp Hc Ho He.
  rewrite (prepare_miss_run w response s p stat tag Hp Hc Ho He).
  eexists. split; [reflexivity|].
  unfold header_of, response_etag, response_type, response_header, set_source.
  simpl.
  destruct tag as [t|];
    destruct (truthy (default JUndefined (headers response !! "content-type")));
    simpl; rewrite ?Hp; split_and!; by simplify_map_eq.
Qed.

(** X7. The etag of a first request and of the ones served from the
    cache, for a path other than [__proto__] and [hasOwnProperty]. On a
    miss, the response carries the rendering of the computed tag, and
    [marshal] stores that header value, with the stat's date, as the
    record, which the cache then answers with. A later [prepare] for the
    path hands the stored value to [response.etag] again: the etag it
    sets is the rendering of the rendering of the tag. *)
Theorem cached_etag_rendered_again w1 w2 response later s p settings stat tag text data :
  src_path (source response) = PathStr p →
  src_settings (source response) = Some settings →
  InMemoryCache.ordinary p = true →
  InMemoryCache.get p (cache s) = Ok None →
  openStat w1 p = Ok stat →
  (∀ src, etag_apply w1 src stat = Ok (Some tag)) →
  readFile w1 p = Ok text →
  postcss_process w1 text = Ok data →
  src_path (source later) = PathStr p →
  truthy (etag_header tag) = true →
  ∃ r1 s1 r1' s2 r2,
    prepare etag_header w1 response s = (Ok r1, s1) ∧
    header_of r1 "etag" = etag_header tag ∧
    marshal w1 r1 s1 = (Ok (r1', css data), s2) ∧
    InMemoryCache.get p (cache s2) =
      Ok (Some (FullRecord (JStr (mtime_utc stat)) (etag_header tag) data
                  (Z.of_nat (String.length (css data))))) ∧
    prepare etag_header w2 later s2 = (Ok r2, s2) ∧
    header_of r2 "etag" = etag_header (etag_header tag).
Proof.
  intros Hp Hs Hord Hc Ho He Hr Ht Hl Htr.
  pose proof (prepare_miss_run w1 response s p stat (Some tag) Hp Hc Ho He) as H1.
  cbv zeta in H1.
  match type of H1 with _ = (Ok ?r, ?st) => set (r1 := r) in *; set (s1 := st) in * end.
  assert (header_of r1 "etag" = etag_header tag ∧
          header_of r1 "last-modified" = JStr (mtime_utc stat) ∧
          src_path (source r1) = PathStr p ∧
          src_settings (source r1) = Some settings) as (Htag & Hdate & Hp1 & Hs1).
  { subst r1. unfold header_of, response_etag, response_type, response_header, set_source.
    simpl.
    destruct (truthy (default JUndefined (headers response !! "content-type")));
      simpl; rewrite ?Hp, ?Hs; split_and!; by simplify_map_eq. }
  assert (InMemoryCache.get p (cache s1) = Ok None) as Hc1 by (by subst s1).
  pose proof (marshal_miss_run w1 r1 s1 p settings text data None Hp1 Hs1 Hc1) as H2.
  rewrite Htag, Hdate in H2.
  match type of H2 with _ → _ → _ → _ = (Ok (?r, _), ?st) =>
    set (r1' := r) in *; set (s2 := st) in * end.
  assert (InMemoryCache.get p (cache s2) =
            Ok (Some (FullRecord (JStr (mtime_utc stat)) (etag_header tag) data
                        (Z.of_nat (String.length (css data)))))) as Hc2
    by (subst s2; simpl; by eapply get_set_ordinary).
  destruct (prepare_hit etag_header w2 later s2
              (FullRecord (JStr (mtime_utc stat)) (etag_header tag) data
                 (Z.of_nat (String.length (css data)))))
    as (r2 & Hprep & _ & _ & _ & _ & He2); [by rewrite Hl|by rewrite Hl|].
  exists r1, s1, r1', s2, r2. split_and!; try done.
  - by apply H2.
  - simpl in He2. by rewrite Htr in He2.
Qed.


(** X9. [marshal] uses a response up. After a successful [marshal] the
    source of the response is the empty object, and any further [marshal]
    of that response throws a [TypeError] in the state it started from:
    on a hit for the key [undefined] for want of settings, on a miss for
    want of a path to read, and that of the cache object when it does
    not answer. *)
Theorem marshal_consumes_source w response s r' body s' :
  marshal w response s = (Ok (r', body), s') →
  source r' = empty_source ∧
  ∀ w2 s2, ∃ msg, marshal w2 r' s2 = (Throw (TypeError msg), s2).
Proof.
  intros H.
  assert (source r' = empty_source) as Hsrc.
  { unfold marshal, marshal_begin, marshal_resume, processCSS, source_settings in H.
    run_monad. repeat (case_match; simplify_eq/=); done. }
  split; [done|]. intros w2 s2.
  unfold marshal, marshal_begin, marshal_resume, processCSS, source_settings.
  run_monad. cbv zeta. rewrite Hsrc. simpl.
  destruct (InMemoryCache.get "undefined" (cache s2)) as [[[m t d z| |]|]|e0] eqn:Eg;
    simpl; rewrite ?Hsrc; simpl; eauto.
  apply get_Throw in Eg as (_ & ->). eauto.
Qed.

(** ** File handles *)

Lemma prepare_handles w response s r s' :
  prepare etag_header w response s = (r, s') →
  open_files s `suffix_of` open_files s'.
Proof.
  unfold prepare, file_openStat, Etag_apply, internals_close. run_monad. intros H.
  repeat (case_match; simplify_eq/=); try done; by apply suffix_cons_r.
Qed.

Lemma load_handles w path request options s r s' :
  load etag_header w path request options s = (r, s') →
  open_files s `suffix_of` open_files s'.
Proof.
  unfold load. unfold mbind, M_bind. intros H.
  destruct (fileResponse _ _ _ _ _) as [[resp|e] s1] eqn:E1;
    apply fileResponse_frame in E1 as (_ & _ & E1).
  - rewrite <- E1. by eapply prepare_handles.
  - simplify_eq. by rewrite E1.
Qed.

Lemma directory_handler_handles w settings request s r s' :
  directory_handler (load etag_header w) settings request s = (r, s') →
  open_files s `suffix_of` open_files s'.
Proof.
  assert (∀ paths s0 r0 s0',
            directory_loop
              (each (load etag_header w) settings request (req_param request)
                 (Path.endsWithSep (req_path request))) paths s0 = (r0, s0') →
            open_files s0 `suffix_of` open_files s0') as Hloop.
  { induction paths as [|d rest IH]; intros s0 r0 s0' H.
    - simpl in H. run_monad. by simplify_eq.
    - rewrite directory_loop_stops_at_first, each_is_first_load in H.
      by eapply load_handles. }
  unfold directory_handler, resolvePathOption. run_monad. intros H.
  repeat (case_match; simplify_eq/=); eauto.
  by apply (Hloop [path] s0 r s').
Qed.

(** X10. No handle is ever given back. Over any schedule the handles
    that are open stay open, in the order they were opened: no step of
    the file handler, of [h.css], of [prepare], of [marshal] or of the
    directory handler closes one. With X6, the handle every successful
    miss of [prepare] opens is open for good. *)
Theorem handles_never_released acts sys :
  open_files (sys_state sys) `suffix_of`
    open_files (sys_state (run etag_header acts sys).2).
Proof.
  revert sys. induction acts as [|a acts IH]; intros sys; simpl; [done|].
  assert (open_files (sys_state sys) `suffix_of`
            open_files (sys_state (step etag_header a sys).2)) as Hstep.
  { destruct a as [settings request|path confine options request|w id|id|w id
                  |w settings request]; simpl.
    - destruct (fileHandler _ _ _) as [r st] eqn:E. simpl.
      unfold fileHandler in E. run_monad.
      repeat (case_match; simplify_eq/=); try done;
        match goal with
        | E : fileResponse _ _ _ _ _ = _ |- _ =>
            apply fileResponse_frame in E as (_ & _ & E); by rewrite E
        end.
    - destruct (fileMethod _ _ _ _ _) as [r st] eqn:E. simpl.
      unfold fileMethod in E. run_monad.
      repeat (case_match; simplify_eq/=); try done;
        match goal with
        | E : fileResponse _ _ _ _ _ = _ |- _ =>
            apply fileResponse_frame in E as (_ & _ & E); by rewrite E
        end.
    - destruct (sys_responses sys !! id) as [response|]; [|done].
      destruct (prepare _ _ _ _) as [r st] eqn:E. simpl.
      by eapply prepare_handles.
    - destruct (sys_responses sys !! id) as [response|]; [|done].
      destruct (marshal_begin _ _) as [r st] eqn:E.
      apply marshal_begin_state in E as ->.
      by destruct r as [[[? ?]|?]|?].
    - destruct (sys_pending sys !! id) as [p|]; [|done].
      destruct (marshal_resume _ _ _) as [r st] eqn:E. simpl.
      unfold marshal_resume, processCSS, source_settings in E. run_monad.
      repeat (case_match; simplify_eq/=); done.
    - destruct (directory_handler _ _ _ _) as [r st] eqn:E. simpl.
      by eapply directory_handler_handles. }
  destruct (step _ a sys) as [o sys1]. simpl in *.
  specialize (IH sys1). destruct (run _ acts sys1) as [trace sys2]. simpl in *.
  by etrans.
Qed.

(** ** directory.js *)

Lemma append_nil (b : string) : "" +:+ b = b.
Proof. reflexivity. Qed.

Lemma append_cons c (a b : string) : String c a +:+ b = String c (a +:+ b).
Proof. reflexivity. Qed.

Lemma isFileHidden_from_below boundary dir path :
  isFileHidden path = true →
  isFileHidden_from boundary (dir +:+ "/" +:+ path) = true.
Proof.
  unfold isFileHidden. intros Hp. revert boundary.
  induction dir as [|c dir IH]; intros boundary;
    repeat (rewrite append_nil || rewrite append_cons); cbn [isFileHidden_from].
  - replace (isSlash "/") with true by reflexivity.
    rewrite Hp. apply orb_true_r.
  - rewrite IH. apply orb_true_r.
Qed.

Lemma isFileHidden_from_no_dot boundary path :
  Forall (λ c, c ≠ "."%char) (String.list_ascii_of_string path) →
  isFileHidden_from boundary path = false.
Proof.
  revert boundary. induction path as [|c path IH]; intros boundary Hall; [done|].
  simpl in Hall. apply Forall_cons in Hall as [Hc Hall].
  cbn [isFileHidden_from]. rewrite IH; [|done].
  assert (hidden_here (String c path) = false) as ->.
  { unfold hidden_here. destruct path; [done|].
    unfold isDot. by rewrite (proj2 (Ascii.eqb_neq c ".") Hc). }
  by rewrite andb_false_r.
Qed.

(** X11. What [isFileHidden] takes for hidden. A path with no '.' in it
    is never hidden. A name that starts with a '.' followed by anything
    but a '.', a '/' or a backslash is hidden, and so is every path it is
    the last part of: a path is hidden as soon as what follows one of its
    '/' is. The components [.] and [..] are not hidden by themselves: a
    leading [../] changes nothing. *)
Theorem isFileHidden_cases :
  (∀ path,
     Forall (λ c, c ≠ "."%char) (String.list_ascii_of_string path) →
     isFileHidden path = false) ∧
  (∀ c rest,
     isDot c || isSlash c = false →
     isFileHidden (String "." (String c rest)) = true) ∧
  (∀ dir path, isFileHidden path = true → isFileHidden (dir +:+ "/" +:+ path) = true) ∧
  (∀ path, isFileHidden ("../" +:+ path) = isFileHidden path) ∧
  isFileHidden "" = false ∧ isFileHidden "." = false ∧ isFileHidden ".." = false.
Proof.
  split_and!; try reflexivity.
  - intros path. apply isFileHidden_from_no_dot.
  - intros c rest Hc. apply orb_false_iff in Hc as [Hd Hs].
    unfold isFileHidden. cbn [isFileHidden_from hidden_here].
    replace (isDot ".") with true by reflexivity. by rewrite Hd, Hs.
  - intros dir path. apply isFileHidden_from_below.
Qed.

(** X12. A hidden selection is answered not-found before any load.
    When hidden files are not shown and the request's parameter is a
    hidden path, the handler throws the not-found error in the state it
    started from and calls no load, whatever the candidate directories
    are (given as a list, or by a function that returns a string or a
    list). *)
Theorem hidden_selection_not_found File_load settings request selection s :
  req_param request = Some selection →
  isFileHidden selection = true →
  dir_showHidden settings = false →
  match dir_path settings with
  | DirArray _ => True
  | DirFunction f =>
      match f request with
      | ResultString _ | ResultArray _ => True
      | _ => False
      end
  end →
  directory_handler File_load settings request s = (Throw Boom_notFound, s).
Proof.
  intros Hsel Hh Hshow Hpaths. unfold directory_handler, resolvePathOption.
  run_monad. rewrite Hsel, Hshow.
  assert (string_truthy (Some selection) = Some selection) as ->.
  { destruct selection; [done|]. reflexivity. }
  change (default "" (Some selection)) with selection. rewrite Hh.
  rewrite bool_decide_eq_true_2; [|by eauto].
  destruct (dir_path settings) as [paths|f]; [done|].
  by destruct (f request).
Qed.

(** X13. The directories a path function returns. An error it returns is
    thrown as it is, anything that is neither a string nor an array is
    the internal error (status 500), both before any load; a string
    stands for the list of that one directory, and an array is used as a
    configured list would be. *)
Theorem path_function_results File_load settings request f s :
  dir_path settings = DirFunction f →
  let configured paths :=
    {| dir_path := DirArray paths; dir_showHidden := dir_showHidden settings;
       dir_lookupCompressed := dir_lookupCompressed settings;
       dir_etagMethod := dir_etagMethod settings;
       dir_defaultExtension := dir_defaultExtension settings |} in
  match f request with
  | ResultError e => directory_handler File_load settings request s = (Throw e, s)
  | ResultOther => directory_handler File_load settings request s = (Throw (Boom 500 None), s)
  | ResultString path =>
      directory_handler File_load settings request s =
        directory_handler File_load (configured [path]) request s
  | ResultArray paths =>
      directory_handler File_load settings request s =
        directory_handler File_load (configured paths) request s
  end.
Proof.
  intros Hf configured. unfold directory_handler, resolvePathOption.
  rewrite Hf. run_monad. simpl. by destruct (f request).
Qed.

Lemma slice_0_m1_slash q : slice_0_m1 (q +:+ "/") = q.
Proof.
  induction q as [|c q IH]; [done|]. rewrite append_cons.
  cbn [slice_0_m1]. rewrite IH. by destruct q.
Qed.

(** X14. The retry with the default extension, for any load. When the
    first load of a candidate fails with not-found and a default
    extension is configured, the candidate's outcome is that of exactly
    one more load in the same directory. Its path is the parameter
    followed by '.' and the extension when the request path does not end
    in '/'; when it does, a parameter that ends in '/' loses that slash
    first, and an absent parameter gives '.' and the extension alone.
    With no default extension the not-found error is the outcome. *)
Theorem each_default_extension File_load settings request selection slash baseDir s e s1 :
  let fileOptions :=
    {| opt_confine := ConfineStr baseDir; opt_mode := None;
       opt_etagMethod := dir_etagMethod settings;
       opt_lookupCompressed := dir_lookupCompressed settings;
       opt_start := None; opt_end := None |} in
  let path := default "" (string_truthy selection) in
  File_load path request fileOptions s = (Throw e, s1) →
  isBoom e = true → isNotFound e = true →
  (string_truthy (dir_defaultExtension settings) = None →
   each File_load settings request selection slash baseDir s = (Throw e, s1)) ∧
  (∀ ext, string_truthy (dir_defaultExtension settings) = Some ext →
     (slash = false →
      each File_load settings request selection slash baseDir s =
        File_load (path +:+ "." +:+ ext) request fileOptions s1) ∧
     (∀ q, slash = true → path = q +:+ "/" →
      each File_load settings request selection slash baseDir s =
        File_load (q +:+ "." +:+ ext) request fileOptions s1) ∧
     (slash = true → path = "" →
      each File_load settings request selection slash baseDir s =
        File_load ("." +:+ ext) request fileOptions s1)).
Proof.
  intros fileOptions path Hl Hb Hn. unfold each. run_monad.
  fold fileOptions path. rewrite Hl, Hb, Hn. simpl. split.
  - by intros ->.
  - intros ext ->. split_and!.
    + by intros ->.
    + intros q -> ->. by rewrite slice_0_m1_slash.
    + by intros -> ->.
Qed.

Lemma prepare_keeps_path w response s r' s' :
  prepare etag_header w response s = (Ok r', s') →
  src_path (source r') = src_path (source response) ∧
  src_path (source response) ≠ PathNull.
Proof.
  unfold prepare, file_openStat, Etag_apply, internals_close. run_monad. intros H.
  repeat (case_match; simplify_eq/=); done.
Qed.

(** X15. What the directory handler does with the [load] of file.js.
    Only the first directory of the list is ever tried and the default
    extension plays no part: the handler's outcome is the one it has
    with that directory alone and no default extension. When it answers
    with a response for a directory that is not the empty string, the
    path of the response starts with that directory, resolved against
    [relativeTo]. *)
Theorem directory_handler_first_candidate w settings request baseDir rest s :
  dir_path settings = DirArray (baseDir :: rest) →
  directory_handler (load etag_header w) settings request s =
    directory_handler (load etag_header w)
      {| dir_path := DirArray [baseDir]; dir_showHidden := dir_showHidden settings;
         dir_lookupCompressed := dir_lookupCompressed settings;
         dir_etagMethod := dir_etagMethod settings;
         dir_defaultExtension := None |} request s ∧
  (∀ resp s',
     directory_handler (load etag_header w) settings request s = (Ok resp, s') →
     baseDir ≠ "" →
     ∃ p, src_path (source resp) = PathStr p ∧
          String.prefix (Path.resolve (cwd request) [relativeTo request; baseDir]) p = true).
Proof.
  intros Hd. unfold directory_handler. rewrite Hd.
  cbn [dir_path dir_showHidden]. unfold mbind, M_bind, mret, M_ret.
  cbv beta iota zeta.
  destruct (_ && isFileHidden _) eqn:Hh; [done|].
  rewrite !directory_loop_stops_at_first, !each_is_first_load. split; [done|].
  intros resp s' H Hne.
  unfold load in H. unfold mbind, M_bind in H.
  destruct (fileResponse _ _ _ _ _) as [[built|e] s1] eqn:E1; [|done].
  apply prepare_keeps_path in H as (Hsame & Hnn).
  apply fileResponse_confined_prefix in E1 as (dir & Hdir & Hpre).
  2:{ simpl. by apply negb_true_iff, String.eqb_neq. }
  simpl in Hdir. injection Hdir as <-.
  destruct Hpre as [Hnull|(p & Hp & Hpre)]; [done|].
  exists p. by rewrite Hsame.
Qed.

(** X17. The fallback over the candidate directories, for any load.
    With a configured list of directories and a selection that is not
    hidden, the handler tries the candidates in the order of the list,
    each from the state the one before it left. When those before a
    candidate have all failed with not-found, a success of that
    candidate is the handler's result and an error of it that is not a
    not-found is the handler's error, in the state that candidate left:
    no later candidate is tried. When every candidate fails with
    not-found, so does the handler. *)
Theorem directory_handler_fallback File_load settings request paths :
  dir_path settings = DirArray paths →
  isFileHidden (default "" (req_param request)) = false →
  let each_dir :=
    each File_load settings request (req_param request)
      (Path.endsWithSep (req_path request)) in
  (∀ pre d post s s1 r s2,
     paths = pre ++ d :: post →
     skipped each_dir pre s s1 → each_dir d s1 = (Ok r, s2) →
     directory_handler File_load settings request s = (Ok r, s2)) ∧
  (∀ pre d post s s1 e s2,
     paths = pre ++ d :: post →
     skipped each_dir pre s s1 → each_dir d s1 = (Throw e, s2) →
     isNotFound e = false →
     directory_handler File_load settings request s = (Throw e, s2)) ∧
  (∀ s s1,
     skipped each_dir paths s s1 →
     ∃ e, directory_handler File_load settings request s = (Throw e, s1) ∧
          isNotFound e = true).
Proof.
  intros Hd Hh each_dir.
  rewrite (directory_handler_runs_loop File_load settings request paths Hd Hh).
  fold each_dir.
  destruct (directory_loop_first_decisive each_dir) as (Hfirst & Herr & Hall).
  split_and!.
  - intros pre d post s s1 r s2 ->. apply Hfirst.
  - intros pre d post s s1 e s2 ->. apply Herr.
  - apply Hall.
Qed.

End Coverage.

(** ** Confinement of a path with no [..] in it *)

Lemma segments_nonempty s : Path.segments s ≠ [].
Proof.
  destruct s as [|c s]; simpl; [done|].
  destruct (Path.isSep c); [done|]. by destruct (Path.segments s).
Qed.

(** Every segment is free of separators: it is its own only segment. *)
Lemma segments_atomic s :
  Forall (λ seg, Path.segments seg = [seg]) (Path.segments s).
Proof.
  induction s as [|c s IH]; simpl; [by repeat constructor|].
  destruct (Path.isSep c) eqn:Hc; [by constructor|].
  destruct (Path.segments s) as [|seg rest]; [by repeat constructor; simpl; rewrite Hc|].
  apply Forall_cons in IH as [Hseg Hrest]. constructor; [|done].
  simpl. by rewrite Hc, Hseg.
Qed.

Lemma segments_app_sep a b :
  Path.segments (a +:+ "/" +:+ b) = Path.segments a ++ Path.segments b.
Proof.
  induction a as [|c a IH]; [done|].
  rewrite append_cons. simpl. destruct (Path.isSep c); [by rewrite IH|].
  rewrite IH. pose proof (segments_nonempty a).
  by destruct (Path.segments a).
Qed.

Lemma segments_concat L :
  L ≠ [] → Forall (λ seg, Path.segments seg = [seg]) L →
  Path.segments (String.concat "/" L) = L.
Proof.
  induction L as [|x L IH]; [done|]. intros _ Hall.
  apply Forall_cons in Hall as [Hx Hall]. destruct L as [|y L]; [done|].
  change (String.concat "/" (x :: y :: L)) with (x +:+ "/" +:+ String.concat "/" (y :: L)).
  rewrite segments_app_sep, Hx, IH; done.
Qed.

Lemma push_plain allow stack seg :
  plain_segment seg → Path.push_segment allow stack seg = seg :: stack.
Proof.
  intros (H0 & H1 & H2 & _). unfold Path.push_segment.
  by rewrite (proj2 (String.eqb_neq _ _) H0), (proj2 (String.eqb_neq _ _) H1),
    (proj2 (String.eqb_neq _ _) H2).
Qed.

Lemma fold_push_plain allow L stack :
  Forall plain_segment L →
  fold_left (Path.push_segment allow) L stack = rev L ++ stack.
Proof.
  revert stack. induction L as [|x L IH]; intros stack Hall; [done|].
  apply Forall_cons in Hall as [Hx Hall]. simpl.
  rewrite push_plain, IH; [|done..]. by rewrite <- app_assoc.
Qed.

(** Without climbing above the root, the stack only ever holds plain
    segments. *)
Lemma fold_push_keeps_plain segs stack :
  Forall (λ seg, Path.segments seg = [seg]) segs →
  Forall plain_segment stack →
  Forall plain_segment (fold_left (Path.push_segment false) segs stack).
Proof.
  revert stack. induction segs as [|seg segs IH]; intros stack Hsegs Hstack; [done|].
  apply Forall_cons in Hsegs as [Hseg Hsegs]. simpl. apply IH; [done|].
  unfold Path.push_segment.
  destruct (String.eqb_spec seg ""), (String.eqb_spec seg "."); simpl; try done.
  destruct (String.eqb_spec seg "..").
  - destruct stack as [|top below]; [done|].
    apply Forall_cons in Hstack as [Htop Hbelow].
    destruct (String.eqb top ".."); [by constructor|done].
  - by constructor.
Qed.

(** Segments other than [..] only add to the stack. *)
Lemma fold_push_no_dotdot segs stack :
  Forall (λ seg, seg ≠ "..") segs →
  ∃ added, fold_left (Path.push_segment false) segs stack = added ++ stack.
Proof.
  revert stack. induction segs as [|seg segs IH]; intros stack Hall; [by exists []|].
  apply Forall_cons in Hall as [Hseg Hall]. simpl.
  assert (Path.push_segment false stack seg = stack ∨
          Path.push_segment false stack seg = seg :: stack) as [-> | ->].
  { unfold Path.push_segment.
    destruct (String.eqb seg "" || String.eqb seg "."); [by left|].
    rewrite (proj2 (String.eqb_neq _ _) Hseg). by right. }
  - by apply IH.
  - destruct (IH (seg :: stack) Hall) as (added & ->).
    exists (added ++ [seg]). by rewrite <- app_assoc.
Qed.

Lemma prefix_append a b : String.prefix a (a +:+ b) = true.
Proof.
  induction a as [|c a IH]; [by destruct b|].
  rewrite append_cons. simpl. by destruct (ascii_dec c c).
Qed.

Lemma concat_app_plain L M :
  L ≠ [] →
  ∃ tail, String.concat "/" (L ++ M) = String.concat "/" L +:+ tail.
Proof.
  intros HL. induction L as [|x L IH]; [done|]. destruct L as [|y L].
  - destruct M as [|m M].
    + exists "". simpl. clear. induction x; [done|]. rewrite append_cons. by f_equal.
    + by exists ("/" +:+ String.concat "/" (m :: M)).
  - destruct IH as (tail & Htail); [done|]. exists tail.
    change (String.concat "/" ((x :: y :: L) ++ M))
      with (x +:+ "/" +:+ String.concat "/" ((y :: L) ++ M)).
    change (String.concat "/" (x :: y :: L))
      with (x +:+ "/" +:+ String.concat "/" (y :: L)).
    rewrite Htail. clear.
    induction x as [|c x IHx]; [done|]. rewrite !append_cons. by f_equal.
Qed.

Lemma concat_plain_nonempty L :
  L ≠ [] → Forall plain_segment L → String.concat "/" L ≠ "".
Proof.
  destruct L as [|x L]; [done|]. intros _ Hall.
  apply Forall_cons in Hall as [(Hx & _) _].
  destruct x as [|c x]; [done|]. by destruct L.
Qed.

Lemma resolve_go_absolute cwd args acc :
  Path.isAbsolute cwd = true → (Path.resolve_go cwd args acc).2 = true.
Proof.
  intros Hcwd. revert acc. induction args as [|a args IH]; intros acc; simpl.
  - by destruct cwd.
  - destruct (String.eqb a ""); [done|]. by destruct (Path.isAbsolute a).
Qed.

(** With an absolute working directory, what [Path.resolve] returns is
    '/' followed by plain segments joined by '/'. *)
Lemma resolve_shape cwd args :
  Path.isAbsolute cwd = true →
  ∃ L, Forall plain_segment L ∧
       Path.resolve cwd args = "/" +:+ String.concat "/" L ∧
       fold_left (Path.push_segment false) (Path.segments (String.concat "/" L)) []
         = rev L.
Proof.
  intros Hcwd. unfold Path.resolve.
  pose proof (resolve_go_absolute cwd (rev args) "" Hcwd) as Habs.
  destruct (Path.resolve_go cwd (rev args) "") as [resolved absolute].
  simpl in Habs. subst absolute. simpl. unfold Path.normalizeString.
  set (stack := fold_left (Path.push_segment false) (Path.segments resolved) []).
  assert (Forall plain_segment stack) as Hstack
    by (apply fold_push_keeps_plain; [apply segments_atomic|done]).
  exists (rev stack). split; [by apply Forall_rev|]. split; [done|].
  rewrite rev_involutive. destruct stack as [|top below]; [done|].
  rewrite segments_concat.
  - rewrite fold_push_plain; [|by apply Forall_rev].
    by rewrite rev_involutive, app_nil_r.
  - simpl. by destruct (rev below).
  - apply Forall_rev. eapply Forall_impl; [exact Hstack|]. by intros ? (_ & _ & _ & ?).
Qed.

Lemma append_assoc_string (a b c : string) : (a +:+ b) +:+ c = a +:+ (b +:+ c).
Proof. induction a as [|x a IH]; [done|]. rewrite !append_cons. by f_equal. Qed.

Lemma join_stays_below L path :
  Forall plain_segment L →
  fold_left (Path.push_segment false) (Path.segments (String.concat "/" L)) [] = rev L →
  Forall (λ seg, seg ≠ "..") (Path.segments path) →
  String.prefix ("/" +:+ String.concat "/" L)
    (Path.join ["/" +:+ String.concat "/" L; path]) = true.
Proof.
  intros HL Hfold Hpath. set (N := String.concat "/" L) in *.
  assert (∃ joined added,
            Path.join ["/" +:+ N; path] = Path.normalize (String "/" joined) ∧
            fold_left (Path.push_segment false) (Path.segments (String "/" joined)) []
              = added ++ rev L) as (joined & added & -> & Hstack).
  { unfold Path.join. rewrite append_cons, append_nil. cbn [Path.join_args String.eqb].
    destruct (String.eqb path "") eqn:Hp.
    - exists N, []. split; [done|]. cbn [Path.segments Path.isSep].
      replace (Ascii.eqb "/" "/") with true by reflexivity. simpl. exact Hfold.
    - destruct (fold_push_no_dotdot (Path.segments path) (rev L) Hpath) as (added & Hadd).
      exists (N +:+ "/" +:+ path), added. rewrite append_cons. split; [done|].
      cbn [Path.segments Path.isSep].
      replace (Ascii.eqb "/" "/") with true by reflexivity.
      rewrite segments_app_sep. simpl.
      change (Path.push_segment false [] "") with (@nil string).
      by rewrite fold_left_app, Hfold. }
  unfold Path.normalize. cbn [String.eqb Path.isAbsolute].
  replace (Path.isSep "/") with true by reflexivity. cbn [negb].
  unfold Path.normalizeString. rewrite Hstack.
  rewrite rev_app_distr, rev_involutive.
  destruct L as [|x L].
  - assert (N = "") as -> by done. rewrite append_cons, append_nil.
    destruct (String.eqb _ ""); [done|]. apply prefix_append.
  - destruct (concat_app_plain (x :: L) (rev added)) as (tail & ->); [done|].
    fold N. pose proof (concat_plain_nonempty (x :: L)) as Hne. fold N in Hne.
    destruct (String.eqb_spec (N +:+ tail) "") as [Hempty|_].
    + destruct N; [by destruct Hne|done].
    + destruct (Path.endsWithSep _).
      * rewrite append_assoc_string, <- append_assoc_string. apply prefix_append.
      * rewrite <- append_assoc_string. apply prefix_append.
Qed.

(** X16. Confinement never turns a harmless path away. With an absolute
    working directory and a confinement directory that is not the empty
    string, a relative path that has no [..] among its segments is never
    denied: [fileResponse] answers with the path joined to the resolved
    confinement directory. *)
Theorem plain_relative_path_not_denied path options request preloaded s dir :
  opt_confine options = ConfineStr dir →
  dir ≠ "" →
  valid_mode (opt_mode options) = true →
  Path.isAbsolute (cwd request) = true →
  Path.isAbsolute path = false →
  Forall (λ seg, seg ≠ "..") (Path.segments path) →
  ∃ resp s',
    fileResponse path options request preloaded s = (Ok resp, s') ∧
    src_path (source resp) =
      PathStr (Path.join [Path.resolve (cwd request) [relativeTo request; dir]; path]).
Proof.
  intros Hc Hdir Hm Hcwd Hrel Hpath.
  destruct (resolve_shape (cwd request) [relativeTo request; dir] Hcwd)
    as (L & HL & HR & Hfold).
  pose proof (join_stays_below L path HL Hfold Hpath) as Hpre.
  rewrite <- HR in Hpre.
  unfold fileResponse, resolve_confine, lastIndexOf_from0. run_monad.
  rewrite Hm, Hc. simpl.
  rewrite (proj2 (String.eqb_neq _ _) Hdir). simpl.
  rewrite Hrel, Hpre. simpl. eauto.
Qed.

(** ** Instances of the further properties *)

Lemma inMemoryCache_round_trip_witness :
  InMemoryCache.get "/srv/www/site.css"
    (InMemoryCache.set "/srv/www/site.css" record_v1 InMemoryCache.constructor)
  = Ok (Some record_v1).
Proof.
  exact (proj1 (inMemoryCache_round_trip InMemoryCache.constructor
                  "/srv/www/site.css" record_v1 eq_refl eq_refl)).
Defined.

Lemma inMemoryCache_reserved_names_witness :
  InMemoryCache.get "/srv/www/site.css"
    (InMemoryCache.set "/srv/www/site.css" record_v1
       (InMemoryCache.set "hasOwnProperty" (Descriptor 0) InMemoryCache.constructor))
  = Throw (TypeError "this.cache.hasOwnProperty is not a function").
Proof.
  destruct inMemoryCache_reserved_names as (Hbreak & Hstays & _).
  apply Hstays. apply Hbreak.
Defined.

Lemma fileResponse_outcomes_witness :
  (∃ msg, fileResponse "site.css" invalid_mode request false initial_state =
            (Throw (AssertionError msg), initial_state)) ∧
  (∃ resp s', fileResponse "../etc/passwd" (with_confine (ConfineStr "") default_options)
                request false initial_state = (Ok resp, s') ∧
              src_path (source resp) = PathStr "/etc/passwd").
Proof.
  split.
  - destruct (fileResponse_outcomes "site.css" invalid_mode request false initial_state)
      as (Hbad & _). exact (Hbad eq_refl).
  - destruct (fileResponse_outcomes "../etc/passwd"
                (with_confine (ConfineStr "") default_options) request false initial_state)
      as (_ & _ & Hok).
    destruct Hok as (resp & Hresp & _ & _ & _ & _ & Hpath);
      [reflexivity|discriminate|].
    exists resp. eexists. split; [exact Hresp|]. exact (Hpath eq_refl).
Defined.

Lemma fileMethod_outcomes_witness :
  (∃ msg, fileMethod "site.css" None (ranged None (Some 5)) request initial_state =
            (Throw (AssertionError msg), initial_state)) ∧
  (∃ resp s', fileMethod "site.css" (Some (ConfineStr "www")) (ranged (Some 2) (Some 5))
                request initial_state = (Ok resp, s') ∧
              (src_path (source resp) = PathNull ∨
               ∃ p, src_path (source resp) = PathStr p ∧
                    String.prefix (Path.resolve "/" ["/srv"; "www"]) p = true)).
Proof.
  split.
  - pose proof (fileMethod_outcomes "site.css" None (ranged None (Some 5)) request
                  initial_state) as H.
    cbv zeta in H. destruct H as (Hbad & _). exact (Hbad eq_refl).
  - pose proof (fileMethod_outcomes "site.css" (Some (ConfineStr "www"))
                  (ranged (Some 2) (Some 5)) request initial_state) as H.
    cbv zeta in H. destruct H as (_ & Hok).
    destruct (Hok eq_refl) as (resp & Hresp & _ & _ & _ & Hconf).
    exists resp. eexists. split; [exact Hresp|].
    apply (Hconf "www"); [reflexivity|discriminate].
Defined.

Lemma fileHandler_settings_outcomes_witness :
  (∃ e, fileHandler_settings (OptionsPath (PathString "css/")) = Throw e) ∧
  (∃ settings,
     fileHandler_settings
       (OptionsObject (PathString "../etc/passwd") None default_options) = Ok settings ∧
     opt_confine (set_options settings) = ConfineStr "." ∧
     ∃ resp s', fileHandler settings request initial_state = (Ok (Built resp), s') ∧
       (src_path (source resp) = PathNull ∨
        ∃ p, src_path (source resp) = PathStr p ∧
             String.prefix (Path.resolve "/" ["/srv"; "."]) p = true)).
Proof.
  split.
  - pose proof (fileHandler_settings_outcomes (OptionsPath (PathString "css/"))) as H.
    cbv zeta in H.
    destruct (fileHandler_settings (OptionsPath (PathString "css/"))) as [settings|e];
      [|by exists e].
    destruct H as (_ & _ & Hsep & _). discriminate (Hsep "css/" eq_refl).
  - pose proof (fileHandler_settings_outcomes
                  (OptionsObject (PathString "../etc/passwd") None default_options)) as H.
    cbv zeta in H.
    destruct (fileHandler_settings _) as [settings|e] eqn:E.
    + destruct H as (_ & _ & _ & Hc & _ & _ & Hbuild). exists settings.
      split; [reflexivity|]. split; [exact Hc|].
      destruct (Hbuild request initial_state) as (resp & s' & Hb & _ & _ & Hconf).
      * injection E as <-. reflexivity.
      * exists resp, s'. split; [exact Hb|]. exact (Hconf "." Hc).
    + discriminate E.
Defined.

Lemma prepare_miss_success_witness :
  ∃ r', prepare Sample.etag_header world_v1 response_site initial_state =
          (Ok r', {| cache := ∅; next_rid := 0;
                     events := [FsOpenStat "/srv/www/site.css";
                                EtagApply (PathStr "/srv/www/site.css")];
                     open_files := ["/srv/www/site.css"] |}) ∧
        header_of r' "last-modified" = JStr "Mon, 01 Jan 2024 00:00:00 GMT".
Proof.
  destruct (prepare_miss_success Sample.etag_header world_v1 response_site initial_state
              "/srv/www/site.css" stat_v1 (Some (JStr "v1")))
    as (r' & Hp & _ & Hm & _); try reflexivity.
  exists r'. split; [exact Hp | exact Hm].
Defined.

Lemma cached_etag_rendered_again_witness :
  ∃ r1 s1 r1' s2 r2,
    prepare Sample.etag_header world_v1 response_site initial_state = (Ok r1, s1) ∧
    header_of r1 "etag" = JStr (quote +:+ "v1" +:+ quote) ∧
    marshal world_v1 r1 s1 = (Ok (r1', "a{color:red}"), s2) ∧
    prepare Sample.etag_header world_v2 response_site s2 = (Ok r2, s2) ∧
    header_of r2 "etag" = JStr (quote +:+ (quote +:+ "v1" +:+ quote) +:+ quote).
Proof.
  destruct (cached_etag_rendered_again Sample.etag_header world_v1 world_v2
              response_site response_site initial_state "/srv/www/site.css"
              confined_www stat_v1 (JStr "v1") "a{color:red}" {| css := "a{color:red}" |})
    as (r1 & s1 & r1' & s2 & r2 & H1 & H2 & H3 & _ & H5 & H6); try reflexivity.
  exists r1, s1, r1', s2, r2. split_conj; assumption.
Defined.


Lemma marshal_consumes_source_witness :
  ∃ r' s', marshal world_v1 response_site initial_state = (Ok (r', "a{color:red}"), s') ∧
    source r' = empty_source ∧
    ∃ msg, marshal world_v2 r' s' = (Throw (TypeError msg), s').
Proof.
  assert (∃ r' s', marshal world_v1 response_site initial_state =
                     (Ok (r', "a{color:red}"), s')) as (r' & s' & Hm)
    by (eexists _, _; vm_compute; reflexivity).
  destruct (marshal_consumes_source world_v1 response_site initial_state r' _ s' Hm)
    as (Hsrc & Hagain).
  exists r', s'. split; [exact Hm|]. split; [exact Hsrc|]. exact (Hagain world_v2 s').
Defined.

Lemma isFileHidden_cases_witness :
  isFileHidden "img/.cache/logo" = true.
Proof.
  destruct isFileHidden_cases as (_ & Hdot & Hbelow & _).
  apply (Hbelow "img" ".cache/logo"). apply (Hdot "c"%char "ache/logo"). reflexivity.
Defined.

Lemma hidden_selection_not_found_witness :
  directory_handler (load Sample.etag_header world_v1)
    (directory_settings ["www"] None) request_hidden initial_state =
    (Throw Boom_notFound, initial_state).
Proof.
  apply (hidden_selection_not_found (load Sample.etag_header world_v1)
           (directory_settings ["www"] None) request_hidden ".git/config" initial_state);
    reflexivity || exact I.
Defined.

Lemma path_function_results_witness :
  directory_handler (plain_load world_v1) (function_settings ResultOther)
    request initial_state = (Throw (Boom 500 None), initial_state) ∧
  directory_handler (plain_load world_v1) (function_settings (ResultString "www"))
    request initial_state =
  directory_handler (plain_load world_v1) (directory_settings ["www"] None)
    request initial_state.
Proof.
  split.
  - exact (path_function_results (plain_load world_v1) (function_settings ResultOther)
             request (λ _, ResultOther) initial_state eq_refl).
  - exact (path_function_results (plain_load world_v1)
             (function_settings (ResultString "www"))
             request (λ _, ResultString "www") initial_state eq_refl).
Defined.

Lemma each_default_extension_witness :
  (∃ resp s',
     each (plain_load world_v1) (directory_settings ["www"] (Some "css")) request_slash
       (Some "styles/") true "www" initial_state = (Ok resp, s') ∧
     src_path (source resp) = PathStr "/srv/www/styles.css") ∧
  (∃ s', each (plain_load world_v1) (directory_settings ["www"] None) request_styles
           (Some "styles") false "www" initial_state = (Throw Boom_notFound, s')).
Proof.
  split.
  - assert (∃ s1, plain_load world_v1 "styles/" request_slash
                    (with_confine (ConfineStr "www") default_options) initial_state =
                    (Throw Boom_notFound, s1)) as (s1 & Hl)
      by (eexists; vm_compute; reflexivity).
    pose proof (each_default_extension (plain_load world_v1)
                  (directory_settings ["www"] (Some "css")) request_slash
                  (Some "styles/") true "www" initial_state Boom_notFound s1) as H.
    cbv zeta in H. destruct (H Hl eq_refl eq_refl) as (_ & Hext).
    destruct (Hext "css" eq_refl) as (_ & Hslash & _).
    rewrite (Hslash "styles" eq_refl eq_refl).
    eexists _, _. split; [vm_compute; reflexivity | reflexivity].
  - assert (∃ s1, plain_load world_v1 "styles" request_styles
                    (with_confine (ConfineStr "www") default_options) initial_state =
                    (Throw Boom_notFound, s1)) as (s1 & Hl)
      by (eexists; vm_compute; reflexivity).
    pose proof (each_default_extension (plain_load world_v1)
                  (directory_settings ["www"] None) request_styles
                  (Some "styles") false "www" initial_state Boom_notFound s1) as H.
    cbv zeta in H. destruct (H Hl eq_refl eq_refl) as (Hnone & _).
    exists s1. exact (Hnone eq_refl).
Defined.

Lemma directory_handler_first_candidate_witness :
  directory_handler (load Sample.etag_header world_v1)
    (directory_settings ["other"; "www"] (Some "css")) request initial_state =
  directory_handler (load Sample.etag_header world_v1)
    (directory_settings ["other"] None) request initial_state.
Proof.
  exact (proj1 (directory_handler_first_candidate Sample.etag_header world_v1
                  (directory_settings ["other"; "www"] (Some "css")) request
                  "other" ["www"] initial_state eq_refl)).
Defined.

Lemma plain_relative_path_not_denied_witness :
  ∃ resp s',
    fileResponse "themes/./dark//site.css" confined_www request false initial_state =
      (Ok resp, s') ∧
    src_path (source resp) = PathStr "/srv/www/themes/dark/site.css".
Proof.
  destruct (plain_relative_path_not_denied "themes/./dark//site.css" confined_www
              request false initial_state "www") as (resp & s' & Hresp & Hpath).
  - reflexivity.
  - discriminate.
  - reflexivity.
  - reflexivity.
  - reflexivity.
  - vm_compute. repeat constructor; discriminate.
  - exists resp, s'. split; [exact Hresp | exact Hpath].
Defined.

Lemma directory_handler_fallback_witness :
  (∃ r s2,
     directory_handler (plain_load world_v1) (directory_settings ["other"; "www"] None)
       request initial_state = (Ok r, s2) ∧
     src_path (source r) = PathStr "/srv/www/site.css") ∧
  (∃ e s2,
     directory_handler (plain_load world_v1) (directory_settings ["other"; "else"] None)
       request initial_state = (Throw e, s2) ∧
     isNotFound e = true).
Proof.
  split.
  - pose proof (directory_handler_fallback (plain_load world_v1)
                  (directory_settings ["other"; "www"] None) request ["other"; "www"]
                  eq_refl eq_refl) as H.
    cbv zeta in H. destruct H as (Hfirst & _ & _).
    eexists _, _. split.
    + eapply (Hfirst ["other"] "www" []); [reflexivity| |].
      * eapply skipped_cons;
          [vm_compute; reflexivity | reflexivity | reflexivity | apply skipped_nil].
      * vm_compute; reflexivity.
    + reflexivity.
  - pose proof (directory_handler_fallback (plain_load world_v1)
                  (directory_settings ["other"; "else"] None) request ["other"; "else"]
                  eq_refl eq_refl) as H.
    cbv zeta in H. destruct H as (_ & _ & Hall).
    assert (∃ s1, skipped
                (each (plain_load world_v1) (directory_settings ["other"; "else"] None)
                   request (req_param request) (Path.endsWithSep (req_path request)))
                ["other"; "else"] initial_state s1) as (s1 & Hsk).
    { eexists.
      eapply skipped_cons;
        [vm_compute; reflexivity | reflexivity | reflexivity |].
      eapply skipped_cons;
        [vm_compute; reflexivity | reflexivity | reflexivity | apply skipped_nil]. }
    destruct (Hall _ _ Hsk) as (e & He & Hn).
    exists e, s1. split; [exact He | exact Hn].
Defined.
